(** * Station allocation for a lab roster: the CSV processor of [main.py]

    A shallow embedding of the decision logic of [CsvDataProcessor]:
    [_collect_previous_state] (decode of the last column),
    [_distribute_students] with its helpers [_assign_station_for_student],
    [find_random_available], [randomize], [check_not_in_list] (the
    allocator) and [convert_state_to_column] (encode).

    Python dictionaries are association lists in insertion order, students
    are row indices ([nat]), station labels are integers ([Z]).  Exceptions
    and in-place mutation are modelled by a state-and-exception monad in
    which the store survives a raised exception, as it does in Python. *)

From Stdlib Require Import String Ascii QArith DecimalString.
From Stdlib Require Import ZArith Lia Bool Arith Permutation List.
Import ListNotations.

Open Scope Z_scope.

(** ** Python values the program handles *)

Inductive exn : Type :=
| ValueError
| TypeError
| KeyError
| IndexError
| OverflowError.

Inductive result (A : Type) : Type :=
| Ok (a : A)
| Raise (e : exn).

Arguments Ok {A} a.
Arguments Raise {A} e.

(** A dictionary from station labels to lists of row indices, in insertion
    order: [{i: [] for i in range(0, 9)}] is [[(0,[]); ...; (8,[])]]. *)
Definition dict : Type := list (Z * list nat).

Fixpoint dict_get (d : dict) (k : Z) : option (list nat) :=
  match d with
  | [] => None
  | (k', l) :: d' => if k' =? k then Some l else dict_get d' k
  end.

(** [d[k].append(x)] on a key that is present; the dictionary is unchanged
    when the key is absent (the caller raises [KeyError] first). *)
Fixpoint dict_append (d : dict) (k : Z) (x : nat) : dict :=
  match d with
  | [] => []
  | (k', l) :: d' =>
      if k' =? k then (k', l ++ [x]) :: d' else (k', l) :: dict_append d' k x
  end.

Definition dict_mem (d : dict) (k : Z) : bool :=
  match dict_get d k with Some _ => true | None => false end.

(** [range(a, a + n)] *)
Fixpoint range (a : Z) (n : nat) : list Z :=
  match n with
  | O => []
  | S n' => a :: range (a + 1) n'
  end.

(** [{i: [] for i in range(0, 9)}] *)
Definition empty_state : dict := map (fun i => (i, @nil nat)) (range 0 9).

(** ** The state-and-exception monad

    [M S A] is a computation over a store [S] that returns an [A] or raises;
    the store is returned in both cases. *)

Definition M (S A : Type) : Type := S -> result A * S.

Definition ret {S A} (a : A) : M S A := fun s => (Ok a, s).

Definition bind {S A B} (m : M S A) (f : A -> M S B) : M S B :=
  fun s =>
    match m s with
    | (Ok a, s') => f a s'
    | (Raise e, s') => (Raise e, s')
    end.

Definition raise {S A} (e : exn) : M S A := fun s => (Raise e, s).

(** [try: body  except ValueError: handler] *)
Definition try_except_ValueError {S} (body handler : M S unit) : M S unit :=
  fun s =>
    match body s with
    | (Raise ValueError, s') => handler s'
    | r => r
    end.

(** [try: body  except (ValueError, TypeError): handler] *)
Definition try_except_Value_Type {S} (body handler : M S unit) : M S unit :=
  fun s =>
    match body s with
    | (Raise ValueError, s') => handler s'
    | (Raise TypeError, s') => handler s'
    | r => r
    end.

Definition lift {S A} (r : result A) : M S A := fun s => (r, s).

Declare Scope py_scope.
Delimit Scope py_scope with py.
Notation "x <- m ;; k" := (bind m (fun x => k))
  (at level 61, m at next level, right associativity) : py_scope.
Notation "m ;;; k" := (bind m (fun _ => k))
  (at level 61, right associativity) : py_scope.

(** [for x in xs: body x] *)
Fixpoint for_each {S A} (xs : list A) (body : A -> M S unit) : M S unit :=
  match xs with
  | [] => ret tt
  | x :: xs' => bind (body x) (fun _ => for_each xs' body)
  end.

(** [d[k]], raising [KeyError] on an absent key *)
Definition subscript (d : dict) (k : Z) : result (list nat) :=
  match dict_get d k with
  | Some l => Ok l
  | None => Raise KeyError
  end.

(** ** The allocator *)

(** What the program prints while it allocates (lines 131, 139/147, 141). *)
Inductive event : Type :=
| PrintGroup (key : Z) (students : list nat)
| PrintAssigned (student : nat) (station : Z)
| PrintFailed (student : nat).

(** One mutation of [new_state]: the dictionary just before
    [new_state[station].append(student)] runs. *)
Record placement : Type := mkPlacement {
  before : dict;
  station : Z;
  student : nat
}.

Definition after (p : placement) : dict :=
  dict_append (before p) (station p) (student p).

(** The store of an allocation run: how many numbers the ambient generator
    has produced, the dictionary [new_state] that [_distribute_students]
    mutates in place, what was printed, and the trail of the mutations of
    [new_state], oldest first. *)
Record world : Type := mkWorld {
  rng_pos : nat;
  new_state : dict;
  stdout : list event;
  history : list placement
}.

Definition initial_world : world := mkWorld 0 empty_state [] [].

Definition print (e : event) : M world unit :=
  fun w => (Ok tt, mkWorld (rng_pos w) (new_state w) (stdout w ++ [e]) (history w)).

Definition read_new_state : M world dict := fun w => (Ok (new_state w), w).

(** [new_state[assigned_station].append(student)] *)
Definition append_student (assigned_station : Z) (st : nat) : M world unit :=
  fun w =>
    match dict_get (new_state w) assigned_station with
    | None => (Raise KeyError, w)
    | Some _ =>
        (Ok tt,
         mkWorld (rng_pos w)
                 (dict_append (new_state w) assigned_station st)
                 (stdout w)
                 (history w ++ [mkPlacement (new_state w) assigned_station st]))
    end.

(** [check_not_in_list]: [True] when no element of [values] occurs in [lst]. *)
Fixpoint check_not_in_list (values lst : list nat) : bool :=
  match values with
  | [] => true
  | value :: values' =>
      if existsb (Nat.eqb value) lst then false
      else check_not_in_list values' lst
  end.

Section Allocator.

(** The successive outputs of the ambient generator.  [random.randint(1, 8)]
    maps the [n]-th output to a station label in 1..8. *)
Variable rand : nat -> Z.

Local Open Scope py_scope.

Definition randomize : M world Z :=
  fun w =>
    (Ok (1 + rand (rng_pos w) mod 8),
     mkWorld (S (rng_pos w)) (new_state w) (stdout w) (history w)).

(** Lines 190-194: is every station 1..8 at three or more? *)
Fixpoint scan_all_full (stations : list Z) (lst : dict) : result bool :=
  match stations with
  | [] => Ok true
  | s :: rest =>
      match subscript lst s with
      | Raise e => Raise e
      | Ok l => if (length l <? 3)%nat then Ok false else scan_all_full rest lst
      end
  end.

(** Lines 204-206: redraw while the candidate holds exactly three and the
    attempt budget is not used up. *)
Fixpoint random_search (budget : nat) (lst : dict) (assigned_station : Z)
  : M world Z :=
  l <- lift (subscript lst assigned_station) ;;
  if (length l =? 3)%nat then
    match budget with
    | O => ret assigned_station
    | S budget' =>
        a <- randomize ;;
        random_search budget' lst a
    end
  else ret assigned_station.

(** Lines 210-213: the first station in ascending order under capacity;
    [assigned_station] is kept when there is none. *)
Fixpoint first_available (stations : list Z) (lst : dict)
  (assigned_station : Z) : result Z :=
  match stations with
  | [] => Ok assigned_station
  | s :: rest =>
      match subscript lst s with
      | Raise e => Raise e
      | Ok l =>
          if (length l <? 3)%nat then Ok s
          else first_available rest lst assigned_station
      end
  end.

Definition find_random_available (lst : dict) : M world Z :=
  all_full <- lift (scan_all_full (range 1 8) lst) ;;
  if all_full : bool then raise ValueError
  else
    a0 <- randomize ;;
    assigned_station <- random_search 8 lst a0 ;;
    l <- lift (subscript lst assigned_station) ;;
    if (length l =? 3)%nat then
      lift (first_available (range 1 8) lst assigned_station)
    else ret assigned_station.

(** Lines 167-169: redraw while the candidate station holds a member of the
    student's previous group and the attempt budget is not used up. *)
Fixpoint avoid_search (budget : nat) (students_group : list nat)
  (lst : dict) (assigned_station : Z) : M world Z :=
  l <- lift (subscript lst assigned_station) ;;
  if negb (check_not_in_list students_group l) then
    match budget with
    | O => ret assigned_station
    | S budget' =>
        a <- find_random_available lst ;;
        avoid_search budget' students_group lst a
    end
  else ret assigned_station.

Definition _assign_station_for_student (st : nat) (students_group : list nat)
  (lst : dict) : M world Z :=
  a0 <- find_random_available lst ;;
  avoid_search 15 students_group lst a0.

(** The body of the loop of lines 135-141 (a student of a nonzero group). *)
Definition place_constrained (students : list nat) (st : nat) : M world unit :=
  try_except_ValueError
    (ns <- read_new_state ;;
     assigned_station <- _assign_station_for_student st students ns ;;
     append_student assigned_station st ;;;
     print (PrintAssigned st assigned_station))
    (print (PrintFailed st)).

(** The body of the loop of lines 144-147 (a student of group 0). *)
Definition place_free (st : nat) : M world unit :=
  ns <- read_new_state ;;
  assigned_station <- find_random_available ns ;;
  append_student assigned_station st ;;;
  print (PrintAssigned st assigned_station).

Definition distribute_group (entry : Z * list nat) : M world unit :=
  let (key, students) := entry in
  match students with
  | [] => ret tt
  | _ :: _ =>
      print (PrintGroup key students) ;;;
      if negb (key =? 0)
      then for_each students (place_constrained students)
      else for_each students place_free
  end.

Definition _distribute_students (previous_state : dict) : M world unit :=
  for_each previous_state distribute_group.

End Allocator.

(** [Allocate]: [_distribute_students] on a fresh [new_state], as
    [template_function] calls it. *)
Definition allocate (rand : nat -> Z) (previous_state : dict)
  : result unit * world :=
  _distribute_students rand previous_state initial_world.



(** ** The codec: decoding the last column *)

(** A cell of the last column as pandas hands it over: missing ([NaN],
    [None]), a Python or numpy integer, a finite float (by its exact
    rational value), an infinite float, a boolean, or a string (by its
    bytes). *)
Inductive raw : Type :=
| RNull
| RInt (z : Z)
| RFloat (q : Q)
| RInf (negative : bool)
| RBool (b : bool)
| RStr (s : string).

(** [pd.isnull(value)] *)
Definition isnull (value : raw) : bool :=
  match value with
  | RNull => true
  | _ => false
  end.

(** *** [int] on a string

    A string cell is held by its bytes: the UTF-8 encoding of its
    characters, which is what a string literal of this file holds; bytes
    that are not UTF-8 are taken as one character each (Latin-1).  [int(s)]
    is the one of
    CPython 3.11, with the character tables of Unicode 14.0: it reads every
    white-space character outside ASCII as a space and every decimal digit
    of Unicode as its ASCII digit, and then expects a decimal literal, that
    is white space (the characters 9 to 13 and 32) on both sides, one
    optional sign, and digits with single underscores between them, at most
    4300 digits (the default of [sys.int_max_str_digits]).  Everything
    else is a [ValueError]. *)

(** The six bits a continuation byte carries. *)
Definition continuation (b : ascii) : option N :=
  let n := N_of_ascii b in
  if ((128 <=? n) && (n <=? 191))%N then Some (n - 128)%N else None.

(** The characters (code points) of a string, from its UTF-8 bytes; [None]
    for bytes that encode no string (overlong forms, surrogates and values
    above 0x10FFFF included). *)
Fixpoint utf8_decode (bytes : list ascii) : option (list N) :=
  match bytes with
  | [] => Some []
  | b0 :: rest =>
      let n0 := N_of_ascii b0 in
      if (n0 <? 128)%N then option_map (cons n0) (utf8_decode rest)
      else if (n0 <? 194)%N then None
      else if (n0 <? 224)%N then
        match rest with
        | b1 :: rest1 =>
            match continuation b1 with
            | Some c1 =>
                option_map (cons ((n0 - 192) * 64 + c1)%N) (utf8_decode rest1)
            | None => None
            end
        | _ => None
        end
      else if (n0 <? 240)%N then
        match rest with
        | b1 :: b2 :: rest2 =>
            match continuation b1, continuation b2 with
            | Some c1, Some c2 =>
                let c := ((n0 - 224) * 4096 + c1 * 64 + c2)%N in
                if ((c <? 2048) || (55296 <=? c) && (c <=? 57343))%N then None
                else option_map (cons c) (utf8_decode rest2)
            | _, _ => None
            end
        | _ => None
        end
      else if (n0 <? 245)%N then
        match rest with
        | b1 :: b2 :: b3 :: rest3 =>
            match continuation b1, continuation b2, continuation b3 with
            | Some c1, Some c2, Some c3 =>
                let c := ((n0 - 240) * 262144 + c1 * 4096 + c2 * 64 + c3)%N in
                if ((c <? 65536) || (1114111 <? c))%N then None
                else option_map (cons c) (utf8_decode rest3)
            | _, _, _ => None
            end
        | _ => None
        end
      else None
  end.

(** The white-space characters outside ASCII. *)
Definition unicode_spaces : list N :=
  [133; 160; 5760; 8192; 8193; 8194; 8195; 8196; 8197; 8198; 8199; 8200;
   8201; 8202; 8232; 8233; 8239; 8287; 12288]%N.

(** The digit zero of every run of ten decimal digits (general category Nd),
    the ASCII one first. *)
Definition decimal_zeros : list N :=
  [48; 1632; 1776; 1984; 2406; 2534; 2662; 2790; 2918; 3046; 3174; 3302;
   3430; 3558; 3664; 3792; 3872; 4160; 4240; 6112; 6160; 6470; 6608; 6784;
   6800; 6992; 7088; 7232; 7248; 42528; 43216; 43264; 43472; 43504; 43600;
   44016; 65296; 66720; 68912; 69734; 69872; 69942; 70096; 70384; 70736;
   70864; 71248; 71360; 71472; 71904; 72016; 72784; 73040; 73120; 92768;
   92864; 93008; 120782; 120792; 120802; 120812; 120822; 123200; 123632;
   125264; 130032]%N.

(** The characters that [int] drops from both ends of a string. *)
Definition is_space (c : N) : bool :=
  ((9 <=? c) && (c <=? 13) || (c =? 32) || existsb (N.eqb c) unicode_spaces)%N.

Definition digit_value (c : N) : option Z :=
  match find (fun zero => (zero <=? c) && (c <? zero + 10))%N decimal_zeros with
  | Some zero => Some (Z.of_N (c - zero))
  | None => None
  end.

Fixpoint lstrip (l : list N) : list N :=
  match l with
  | c :: l' => if is_space c then lstrip l' else l
  | [] => []
  end.

Definition strip (l : list N) : list N :=
  rev (lstrip (rev (lstrip l))).

(** Where the scanner of a decimal literal stands: before the first digit,
    after a digit, or after an underscore. *)
Inductive scan_state : Type := AtStart | AfterDigit | AfterUnderscore.

Definition max_str_digits : nat := 4300.

(** The digits of a literal, with their number [count]. *)
Fixpoint scan_digits (st : scan_state) (acc : Z) (count : nat) (l : list N)
  : option Z :=
  match l with
  | [] =>
      match st with
      | AfterDigit => if (count <=? max_str_digits)%nat then Some acc else None
      | _ => None
      end
  | c :: l' =>
      match digit_value c with
      | Some d => scan_digits AfterDigit (10 * acc + d) (S count) l'
      | None =>
          if (c =? 95)%N then
            match st with
            | AfterDigit => scan_digits AfterUnderscore acc count l'
            | _ => None
            end
          else None
      end
  end.

(** A decimal literal, from its characters: [45] is the minus sign, [43] the
    plus sign, [95] the underscore. *)
Definition parse_int (chars : list N) : option Z :=
  match strip chars with
  | 45%N :: digits => option_map Z.opp (scan_digits AtStart 0 0 digits)
  | 43%N :: digits => scan_digits AtStart 0 0 digits
  | body => scan_digits AtStart 0 0 body
  end.

(** The characters of a string cell. *)
Definition characters (s : string) : list N :=
  let bytes := list_ascii_of_string s in
  match utf8_decode bytes with
  | Some chars => chars
  | None => map N_of_ascii bytes
  end.

(** [int(s)] for a string [s]. *)
Definition int_of_string (s : string) : result Z :=
  match parse_int (characters s) with
  | Some z => Ok z
  | None => Raise ValueError
  end.

(** [int(value)]: identity on integers, truncation toward zero on finite
    floats, [OverflowError] on an infinity, [ValueError] on [NaN] and on a
    string that is not a decimal literal. *)
Definition py_int (value : raw) : result Z :=
  match value with
  | RNull => Raise ValueError
  | RInt z => Ok z
  | RFloat q => Ok (Z.quot (Qnum q) (Zpos (Qden q)))
  | RInf _ => Raise OverflowError
  | RBool b => Ok (if b then 1 else 0)
  | RStr s => int_of_string s
  end.

(** The store of a decode: the dictionary [previous_state] being filled and
    the warnings printed (line 117), each with its row and value. *)
Record decoding : Type := mkDecoding {
  previous_state : dict;
  warnings : list (nat * raw)
}.

Definition warn (i : nat) (value : raw) : M decoding unit :=
  fun s => (Ok tt, mkDecoding (previous_state s) (warnings s ++ [(i, value)])).

(** [if key in previous_state: previous_state[key].append(i)] *)
Definition append_if_known (key : Z) (i : nat) : M decoding unit :=
  fun s =>
    if dict_mem (previous_state s) key
    then (Ok tt, mkDecoding (dict_append (previous_state s) key i) (warnings s))
    else (Ok tt, s).

(** Lines 108-111 *)
Definition key_of (value : raw) : result Z :=
  if isnull value then Ok 0
  else
    match py_int value with
    | Raise e => Raise e
    | Ok v => if v =? 0 then Ok 0 else py_int value
    end.

(** The body of the loop of lines 106-117. *)
Definition collect_row (row : nat * raw) : M decoding unit :=
  let (i, value) := row in
  try_except_Value_Type
    (bind (lift (key_of value)) (fun key => append_if_known key i))
    (warn i value).

(** [enumerate(column)] *)
Definition enumerate {A} (column : list A) : list (nat * A) :=
  combine (seq 0 (length column)) column.

Definition _collect_previous_state (column : list raw) : M decoding unit :=
  for_each (enumerate column) collect_row.

(** [Decode]: [_collect_previous_state] on a fresh [previous_state], as
    [template_function] calls it. *)
Definition decode (column : list raw) : result unit * decoding :=
  _collect_previous_state column (mkDecoding empty_state []).

(** ** The codec: encoding the new state *)

(** [column_values[index] = key] *)
Fixpoint list_set (l : list Z) (index : nat) (key : Z) : list Z :=
  match l, index with
  | [], _ => []
  | _ :: l', O => key :: l'
  | x :: l', S index' => x :: list_set l' index' key
  end.

Definition set_item (key : Z) (index : nat) : M (list Z) unit :=
  fun column_values =>
    if (index <? length column_values)%nat
    then (Ok tt, list_set column_values index key)
    else (Raise IndexError, column_values).

(** [convert_state_to_column], with [rows] for [len(self.data)]. *)
Definition convert_state_to_column (rows : nat) (state_dict : dict)
  : result (list Z) :=
  let column_values := repeat 0 rows in
  match
    for_each state_dict
      (fun entry => for_each (snd entry) (set_item (fst entry)))
      column_values
  with
  | (Ok _, column_values') => Ok column_values'
  | (Raise e, _) => Raise e
  end.

(** ** One run of [template_function] on the last column *)

Definition template_function (rand : nat -> Z) (column : list raw)
  : result dict :=
  match decode column with
  | (Raise e, _) => Raise e
  | (Ok _, d) =>
      match _distribute_students rand (previous_state d) initial_world with
      | (Raise e, _) => Raise e
      | (Ok _, w) => Ok (new_state w)
      end
  end.

(** [add_template_column]: the values of the new column. *)
Definition add_template_column (rand : nat -> Z) (column : list raw)
  : result (list Z) :=
  match template_function rand column with
  | Raise e => Raise e
  | Ok new_state => convert_state_to_column (length column) new_state
  end.

(** ** Vocabulary of the statements *)

(** How many students a station holds ([0] for an absent key). *)
Definition load (d : dict) (s : Z) : nat :=
  match dict_get d s with
  | Some l => length l
  | None => O
  end.

(** The members of a station ([[]] for an absent key). *)
Definition members (d : dict) (s : Z) : list nat :=
  match dict_get d s with
  | Some l => l
  | None => []
  end.

(** Every row index a dictionary lists, in dictionary order. *)
Definition items (d : dict) : list nat := concat (map snd d).

(** The row indices that the stations 1..8 hold, station by station. *)
Definition stationed (d : dict) : list nat :=
  flat_map (members d) (range 1 8).

Definition has_stations (d : dict) : Prop :=
  forall s, 1 <= s <= 8 -> dict_get d s <> None.

Definition within_capacity (d : dict) : Prop :=
  forall s, 1 <= s <= 8 -> (load d s <= 3)%nat.

Definition all_full (d : dict) : Prop :=
  forall s, 1 <= s <= 8 -> (3 <= load d s)%nat.

(** [s] is the first station, in ascending order, that is under capacity. *)
Definition first_under (d : dict) (s : Z) : Prop :=
  1 <= s <= 8 /\ (load d s < 3)%nat /\
  forall s', 1 <= s' < s -> (3 <= load d s')%nat.

(** The [n]-th station label [randomize] returns. *)
Definition draw (rand : nat -> Z) (n : nat) : Z := 1 + rand n mod 8.

(** The world after [k] more draws and nothing else. *)
Definition advance (k : nat) (w : world) : world :=
  mkWorld (k + rng_pos w) (new_state w) (stdout w) (history w).

(** The candidates a retry loop looks at: the one it starts from, then the
    stations drawn from position [p] on. *)
Definition candidate (rand : nat -> Z) (a : Z) (p : nat) (i : nat) : Z :=
  match i with
  | O => a
  | S j => draw rand (p + j)
  end.

(** The trail [h] leads from the dictionary [d0] to the dictionary [d]: each
    placement starts from the dictionary the one before it left. *)
Fixpoint linked (d0 : dict) (h : list placement) (d : dict) : Prop :=
  match h with
  | [] => d0 = d
  | p :: h' => before p = d0 /\ linked (after p) h' d
  end.

(** A placement that respects the capacity: the station is one of 1..8, held
    fewer than three students, and no station exceeds three before or after. *)
Definition sound_placement (p : placement) : Prop :=
  1 <= station p <= 8 /\ (load (before p) (station p) < 3)%nat /\
  within_capacity (before p) /\ within_capacity (after p).

(** The dictionary has exactly the keys [0..8], in this order. *)
Definition shaped (d : dict) : Prop := map fst d = range 0 9.

(** What a printed line says about the order of processing: a group is
    taken up, or a student is dealt with (placed or given up). *)
Inductive action : Type :=
| Header (key : Z) (students : list nat)
| Attempt (student : nat).

Definition action_of (e : event) : action :=
  match e with
  | PrintGroup key students => Header key students
  | PrintAssigned st _ => Attempt st
  | PrintFailed st => Attempt st
  end.

(** The order in which a previous state is worked through: its non-empty
    groups in dictionary order, each group's students in list order. *)
Definition schedule (previous_state : dict) : list action :=
  flat_map
    (fun entry =>
       match snd entry with
       | [] => []
       | _ :: _ => Header (fst entry) (snd entry) :: map Attempt (snd entry)
       end)
    previous_state.

(** Group 0 is taken up after every nonzero group that is taken up. *)
Definition zero_group_last (log : list event) : Prop :=
  forall i j students key students',
    nth_error log i = Some (PrintGroup 0 students) ->
    nth_error log j = Some (PrintGroup key students') ->
    key <> 0 -> (j < i)%nat.

(** A previous state used in the examples. *)
Definition sample_previous_state : dict :=
  [(0, [3; 4]%nat); (1, [0; 1; 2]%nat); (2, [5%nat]); (3, []); (4, []);
   (5, []); (6, []); (7, []); (8, [])].

(** Every station has room. *)
Definition roomy (d : dict) : Prop :=
  forall s, 1 <= s <= 8 -> (load d s < 3)%nat.

(** Station [s] holds a member of [group]. *)
Definition collides (group : list nat) (d : dict) (s : Z) : Prop :=
  check_not_in_list group (members d s) = false.

(** The previous state of the end-to-end scenario: group 1 is [[0; 1; 2]],
    every other group is empty. *)
Definition scenario : dict :=
  [(0, []); (1, [0; 1; 2]%nat); (2, []); (3, []); (4, []); (5, []); (6, []);
   (7, []); (8, [])].

(** The retry loop of a student, which reads its candidates from draw [p]
    on and avoids the stations [taken], settles on candidate [k] (counted
    from 0): the candidates before it are all taken, and it is taken itself
    only if it is the sixteenth. *)
Definition settles (rand : nat -> Z) (taken : list Z) (p k : nat) : Prop :=
  (k <= 15)%nat /\
  (forall i, (i < k)%nat -> In (draw rand (p + i)) taken) /\
  (In (draw rand (p + k)) taken -> k = 15%nat).

(** One of the 16 candidates read from draw [p] on is not taken. *)
Definition escapes (rand : nat -> Z) (taken : list Z) (p : nat) : Prop :=
  exists i, (i < 16)%nat /\ ~ In (draw rand (p + i)) taken.

(** A previous state with 25 students in group 0 and one in group 1. *)
Definition overflow_previous_state : dict :=
  [(0, seq 0 25); (1, [25%nat]); (2, []); (3, []); (4, []); (5, []); (6, []);
   (7, []); (8, [])].

(** A dictionary whose station 1 is full and whose other stations are empty. *)
Definition first_full_state : dict :=
  [(0, []); (1, [0; 1; 2]%nat); (2, []); (3, []); (4, []); (5, []); (6, []);
   (7, []); (8, [])].

(** A cell that is not an infinite float. *)
Definition finite (value : raw) : Prop :=
  match value with
  | RInf _ => False
  | _ => True
  end.


(** A cell that is present and converts to the integer [z]. *)
Definition converts_to (value : raw) (z : Z) : Prop :=
  isnull value = false /\ py_int value = Ok z.

(** Row [i] is listed in no group of the dictionary. *)
Definition skipped (d : dict) (i : nat) : Prop :=
  forall key, ~ In i (members d key).

(** No warning was printed for row [i]. *)
Definition silent (s : decoding) (i : nat) : Prop :=
  forall value, ~ In (i, value) (warnings s).

(** The column of the decode test. *)
Definition test_column : list raw :=
  [RInt 1; RStr "abc"; RInt 0; RInt 9; RNull; RInt 3].

(** Every row index the dictionary lists is below [rows]. *)
Definition indices_below (rows : nat) (d : dict) : Prop :=
  forall key l i, In (key, l) d -> In i l -> (i < rows)%nat.

(** A row index is listed under one station label only (the uniqueness
    invariant of a grouping). *)
Definition unique_station (d : dict) : Prop :=
  forall key l key' l' i,
    In (key, l) d -> In (key', l') d -> In i l -> In i l' -> key = key'.

(** Row [i] is listed by no entry of the dictionary. *)
Definition unlisted (d : dict) (i : nat) : Prop :=
  forall key l, In (key, l) d -> ~ In i l.

(** The world after [st] has been appended to station [s], [k] draws later. *)
Definition placed (st : nat) (s : Z) (k : nat) (w : world) : world :=
  mkWorld (k + rng_pos w)
          (dict_append (new_state w) s st)
          (stdout w ++ [PrintAssigned st s])
          (history w ++ [mkPlacement (new_state w) s st]).

(** The world after the placement of [st] has been given up. *)
Definition failed (st : nat) (w : world) : world :=
  mkWorld (rng_pos w) (new_state w) (stdout w ++ [PrintFailed st]) (history w).

(** What the body of a placement loop can do to a world. *)
Inductive outcome (st : nat) (w : world) : result unit * world -> Prop :=
| out_placed s k :
    1 <= s <= 8 -> (load (new_state w) s < 3)%nat ->
    outcome st w (Ok tt, placed st s k w)
| out_failed :
    all_full (new_state w) -> outcome st w (Ok tt, failed st w)
| out_raised :
    all_full (new_state w) -> outcome st w (Raise ValueError, w).

(** The invariant of an allocation run. *)
Definition sane (w : world) : Prop :=
  has_stations (new_state w) /\ within_capacity (new_state w).

(** The invariant with the trail of mutations. *)
Definition good (w : world) : Prop :=
  sane w /\ linked empty_state (history w) (new_state w) /\
  Forall sound_placement (history w).

(** A dictionary whose station 1 holds four students. *)
Definition overfull_state : dict :=
  [(0, []); (1, [0; 1; 2; 3]%nat); (2, []); (3, []); (4, []); (5, []);
   (6, []); (7, []); (8, [])].

(** Two generators used in the examples: a constant one and a counter. *)
Definition always (z : Z) : nat -> Z := fun _ => z.
Definition counting : nat -> Z := fun n => Z.of_nat n.

(** ** The table and the driver loop *)

(** A table: its named columns, in order.  The names are unique, as
    [read_csv] makes them. *)
Definition frame : Type := list (string * list raw).

(** [len(self.data)] *)
Definition frame_rows (f : frame) : nat :=
  match f with
  | [] => O
  | (_, values) :: _ => length values
  end.

(** [self.data[self.data.columns[-1]]]: [columns[-1]] raises [IndexError]
    on a table without columns. *)
Definition last_column (f : frame) : result (list raw) :=
  match rev f with
  | [] => Raise IndexError
  | (_, values) :: _ => Ok values
  end.

Definition has_column (name : string) (f : frame) : bool :=
  existsb (fun c => String.eqb (fst c) name) f.

Fixpoint replace_column (name : string) (values : list raw) (f : frame)
  : frame :=
  match f with
  | [] => []
  | (n, v) :: f' =>
      if String.eqb n name then (n, values) :: f'
      else (n, v) :: replace_column name values f'
  end.

(** [self.data[column_name] = new_column_values]: an existing column is
    overwritten where it stands, a new one is added at the end; a list of
    the wrong length is a [ValueError]. *)
Definition set_column (name : string) (values : list raw) (f : frame)
  : result frame :=
  match f with
  | [] => Ok [(name, values)]
  | _ :: _ =>
      if (length values =? frame_rows f)%nat then
        Ok (if has_column name f then replace_column name values f
            else f ++ [(name, values)])
      else Raise ValueError
  end.

(** The processor between two calls: [self.data] ([None] until the file is
    loaded) and how many numbers the ambient generator has produced. *)
Record session : Type := mkSession {
  data : option frame;
  draws_used : nat
}.

(** [f"Lab_{i}"] *)
Definition lab_name (i : Z) : string :=
  ("Lab_" ++ NilEmpty.string_of_int (Z.to_int i))%string.

Section Driver.

Variable rand : nat -> Z.

(** What [pd.read_csv(self.file_path)] returns. *)
Variable csv : frame.

Local Open Scope py_scope.

(** [load_data] *)
Definition load_data : M session frame :=
  fun s => (Ok csv, mkSession (Some csv) (draws_used s)).

(** [self.data], loaded on demand (lines 62-63) *)
Definition current_data : M session frame :=
  fun s =>
    match data s with
    | Some f => (Ok f, s)
    | None => load_data s
    end.

(** [template_function] inside a session, on the table [f] that
    [add_template_column] has made sure is loaded: the allocation goes on
    with the generator where the session left it. *)
Definition session_template_function (f : frame) : M session dict :=
  fun s =>
    match last_column f with
    | Raise e => (Raise e, s)
    | Ok column =>
        match decode column with
        | (Raise e, _) => (Raise e, s)
        | (Ok _, d) =>
            match _distribute_students rand (previous_state d)
                    (mkWorld (draws_used s) empty_state [] []) with
            | (Raise e, w) => (Raise e, mkSession (data s) (rng_pos w))
            | (Ok _, w) => (Ok (new_state w), mkSession (data s) (rng_pos w))
            end
        end
    end.

(** [add_template_column] *)
Definition session_add_template_column (column_name : string)
  : M session unit :=
  f <- current_data ;;
  new_state <- session_template_function f ;;
  new_column_values <- lift (convert_state_to_column (frame_rows f) new_state) ;;
  fun s =>
    match set_column column_name (map RInt new_column_values) f with
    | Raise e => (Raise e, s)
    | Ok f' => (Ok tt, mkSession (Some f') (draws_used s))
    end.

(** The driver: load the file, then add the columns [Lab_3] ... [Lab_8]
    (writing the result back to disk is left out). *)
Definition driver : M session unit :=
  load_data ;;;
  for_each (map lab_name (range 3 6)) session_add_template_column.

End Driver.

(** ** More vocabulary *)

(** The students a log reports as not placed. *)
Definition failures (log : list event) : list nat :=
  flat_map (fun e => match e with PrintFailed st => [st] | _ => [] end) log.

(** The students a log reports on, placed or not, in the order of the
    lines. *)
Definition reported (log : list event) : list nat :=
  flat_map
    (fun e =>
       match e with
       | PrintAssigned st _ => [st]
       | PrintFailed st => [st]
       | PrintGroup _ _ => []
       end)
    log.

(** What a printed line does to a dictionary of stations. *)
Definition replay_event (d : dict) (e : event) : dict :=
  match e with
  | PrintAssigned st s => dict_append d s st
  | _ => d
  end.

Definition replay (log : list event) (d : dict) : dict :=
  fold_left replay_event log d.

(** The list is strictly increasing. *)
Fixpoint ascending (l : list nat) : Prop :=
  match l with
  | [] => True
  | x :: l' => (forall y, In y l' -> (x < y)%nat) /\ ascending l'
  end.

(** The label that the encoder leaves at row [i]: the key of the last entry,
    in dictionary order, that lists [i]; 0 when none does. *)
Definition last_label (d : dict) (i : nat) : Z :=
  fold_left
    (fun label entry =>
       if existsb (Nat.eqb i) (snd entry) then fst entry else label)
    d 0.

(** A cell holding a station label or 0. *)
Definition label_cell (value : raw) : Prop :=
  exists z, value = RInt z /\ 0 <= z <= 8.

(** A cell holding a station label. *)
Definition station_cell (value : raw) : Prop :=
  exists z, value = RInt z /\ 1 <= z <= 8.

(** No station label is used by more than three rows of the column. *)
Definition at_most_three (column : list raw) : Prop :=
  forall s rows_of_s,
    1 <= s <= 8 -> NoDup rows_of_s ->
    (forall i, In i rows_of_s -> nth_error column i = Some (RInt s)) ->
    (length rows_of_s <= 3)%nat.

(** A column of [n] cells holding station labels or 0, no label more than
    three times. *)
Definition labelled (n : nat) (column : list raw) : Prop :=
  length column = n /\ Forall label_cell column /\ at_most_three column.

(** A column of [n] cells that all hold a station label, no label more than
    three times. *)
Definition fully_labelled (n : nat) (column : list raw) : Prop :=
  length column = n /\ Forall station_cell column /\ at_most_three column.

(** All columns of the table have [n] rows. *)
Definition rectangular (n : nat) (f : frame) : Prop :=
  forall name values, In (name, values) f -> length values = n.

(** ** Dictionaries *)

Lemma dict_get_append_same d k x :
  dict_get (dict_append d k x) k =
  option_map (fun l => l ++ [x]) (dict_get d k).
Proof.
  induction d as [|[k' l] d IH]; simpl; [reflexivity|].
  destruct (k' =? k) eqn:E; simpl; rewrite E; [reflexivity | exact IH].
Qed.

Lemma dict_get_append_other d k k' x :
  k <> k' -> dict_get (dict_append d k x) k' = dict_get d k'.
Proof.
  intros Hk. induction d as [|[k0 l] d IH]; simpl; [reflexivity|].
  destruct (k0 =? k) eqn:E; simpl.
  - apply Z.eqb_eq in E. subst k0.
    destruct (k =? k') eqn:E'; [apply Z.eqb_eq in E'; contradiction | reflexivity].
  - destruct (k0 =? k'); [reflexivity | exact IH].
Qed.

Lemma load_append_same d k x :
  dict_get d k <> None -> load (dict_append d k x) k = S (load d k).
Proof.
  intros H. unfold load. rewrite dict_get_append_same.
  destruct (dict_get d k) as [l|]; [|contradiction].
  simpl. rewrite length_app. simpl. lia.
Qed.

Lemma load_append_other d k k' x :
  k <> k' -> load (dict_append d k x) k' = load d k'.
Proof. intros H. unfold load. now rewrite dict_get_append_other. Qed.

Lemma has_stations_append d k x :
  has_stations d -> has_stations (dict_append d k x).
Proof.
  intros H s Hs. destruct (Z.eq_dec k s) as [->|Hne].
  - rewrite dict_get_append_same. specialize (H s Hs).
    destruct (dict_get d s); [discriminate | contradiction].
  - rewrite dict_get_append_other by assumption. now apply H.
Qed.

Lemma within_capacity_append d k x :
  dict_get d k <> None -> (load d k < 3)%nat ->
  within_capacity d -> within_capacity (dict_append d k x).
Proof.
  intros Hk Hlt H s Hs. destruct (Z.eq_dec k s) as [->|Hne].
  - rewrite load_append_same by assumption. lia.
  - rewrite load_append_other by assumption. now apply H.
Qed.

Lemma items_append d k x :
  dict_get d k <> None -> Permutation (items (dict_append d k x)) (x :: items d).
Proof.
  unfold items. induction d as [|[k' l] d IH]; simpl; intros H.
  - contradiction.
  - destruct (k' =? k) eqn:E; simpl.
    + rewrite <- app_assoc. simpl.
      symmetry. apply Permutation_middle.
    + rewrite (IH H). symmetry. apply Permutation_middle.
Qed.

Lemma draw_range rand n : 1 <= draw rand n <= 8.
Proof. unfold draw. pose proof (Z.mod_pos_bound (rand n) 8). lia. Qed.

(** Every sequence of station labels in 1..8 is the sequence of draws of
    some generator. *)
Lemma draw_any (labels : nat -> Z) :
  (forall n, 1 <= labels n <= 8) ->
  forall n, draw (fun m => labels m - 1) n = labels n.
Proof.
  intros H n. unfold draw. specialize (H n).
  rewrite Z.mod_small by lia. lia.
Qed.

Lemma advance_0 w : advance 0 w = w.
Proof. now destruct w. Qed.

Lemma advance_advance j k w : advance j (advance k w) = advance (j + k) w.
Proof. unfold advance. simpl. f_equal. lia. Qed.

(** ** The helper [find_random_available] *)

Lemma subscript_load lst s :
  dict_get lst s <> None ->
  exists l, subscript lst s = Ok l /\ length l = load lst s.
Proof.
  unfold subscript, load. destruct (dict_get lst s) as [l|]; [|contradiction].
  intros _. now exists l.
Qed.

Lemma in_range a n s : In s (range a n) <-> a <= s < a + Z.of_nat n.
Proof.
  revert a. induction n as [|n IH]; intros a; simpl range.
  - simpl. lia.
  - simpl In. rewrite IH. lia.
Qed.

(** The first loop answers [True] exactly when every station scanned holds
    three or more. *)
Lemma scan_all_full_spec lst n a :
  (forall s, a <= s < a + Z.of_nat n -> dict_get lst s <> None) ->
  exists b, scan_all_full (range a n) lst = Ok b /\
            (b = true <->
             forall s, a <= s < a + Z.of_nat n -> (3 <= load lst s)%nat).
Proof.
  revert a. induction n as [|n IH]; intros a Hp; simpl.
  - exists true. split; [reflexivity|]. split; [intros _ s Hs; lia | reflexivity].
  - destruct (subscript_load lst a) as (l & -> & Hl); [apply Hp; lia|].
    destruct (Nat.ltb_spec (length l) 3) as [Hlt|Hge].
    + exists false. split; [reflexivity|]. split; [discriminate|].
      intros H. specialize (H a ltac:(lia)). lia.
    + destruct (IH (a + 1)) as (b & -> & Hb); [intros s Hs; apply Hp; lia|].
      exists b. split; [reflexivity|]. rewrite Hb. split.
      * intros H s Hs. destruct (Z.eq_dec s a) as [->|]; [lia | apply H; lia].
      * intros H s Hs. apply H. lia.
Qed.

(** The ascending scan returns the first station under capacity. *)
Lemma first_available_spec lst dflt n a :
  (forall s, a <= s < a + Z.of_nat n -> dict_get lst s <> None) ->
  (exists s, a <= s < a + Z.of_nat n /\ (load lst s < 3)%nat) ->
  exists s, first_available (range a n) lst dflt = Ok s /\
            a <= s < a + Z.of_nat n /\ (load lst s < 3)%nat /\
            forall s', a <= s' < s -> (3 <= load lst s')%nat.
Proof.
  revert a. induction n as [|n IH]; intros a Hp (s0 & Hs0 & Hl0); simpl.
  - lia.
  - destruct (subscript_load lst a) as (l & -> & Hl); [apply Hp; lia|].
    destruct (Nat.ltb_spec (length l) 3) as [Hlt|Hge].
    + exists a. repeat split; try lia.
    + destruct (IH (a + 1)) as (s & -> & Hs & Hls & Hfirst).
      * intros s Hs. apply Hp. lia.
      * exists s0. split; [|assumption].
        destruct (Z.eq_dec s0 a) as [->|]; lia.
      * exists s. repeat split; try lia.
        intros s' Hs'. destruct (Z.eq_dec s' a) as [->|]; [lia | apply Hfirst; lia].
Qed.

(** The random loop stops at the first candidate that does not hold exactly
    three, or when its budget is spent. *)
Lemma random_search_spec rand lst :
  has_stations lst ->
  forall budget a w, 1 <= a <= 8 ->
  exists k, (k <= budget)%nat /\
    random_search rand budget lst a w =
      (Ok (candidate rand a (rng_pos w) k), advance k w) /\
    (forall i, (i < k)%nat -> load lst (candidate rand a (rng_pos w) i) = 3%nat) /\
    (load lst (candidate rand a (rng_pos w) k) = 3%nat -> k = budget).
Proof.
  intros Hst. induction budget as [|b IH]; intros a w Ha.
  - exists O. simpl. unfold bind, lift, ret.
    destruct (subscript_load lst a) as (l & -> & Hl); [now apply Hst|].
    rewrite advance_0. repeat split; try lia.
    now destruct (length l =? 3)%nat.
  - simpl. unfold bind at 1. unfold lift.
    destruct (subscript_load lst a) as (l & -> & Hl); [now apply Hst|].
    destruct (Nat.eqb_spec (length l) 3) as [H3|H3].
    + unfold bind, randomize.
      set (w1 := mkWorld (S (rng_pos w)) (new_state w) (stdout w) (history w)).
      destruct (IH (1 + rand (rng_pos w) mod 8) w1 (draw_range rand (rng_pos w)))
        as (k & Hk & Heq & Hall & Hlast).
      exists (S k). split; [lia|]. 
      assert (Hc : forall i, candidate rand (1 + rand (rng_pos w) mod 8) (rng_pos w1) i
                             = candidate rand a (rng_pos w) (S i)).
      { intros [|i]; simpl.
        - unfold draw. now rewrite Nat.add_0_r.
        - f_equal. lia. }
      rewrite Heq, Hc. split.
      * f_equal. unfold advance, w1. simpl. f_equal. lia.
      * split.
        -- intros [|i] Hi; [simpl; lia|]. rewrite <- Hc. apply Hall. lia.
        -- intros H. rewrite <- Hc in H. specialize (Hlast H). lia.
    + exists O. unfold ret. rewrite advance_0. simpl. repeat split; try lia.
Qed.

(** [find_random_available] raises when every station is full. *)
Lemma find_random_available_full rand lst w :
  has_stations lst -> all_full lst ->
  find_random_available rand lst w = (Raise ValueError, w).
Proof.
  intros Hst Hfull. unfold find_random_available, bind at 1, lift at 1.
  destruct (scan_all_full_spec lst 8 1) as (b & -> & Hb).
  { intros s Hs. apply Hst. lia. }
  replace b with true; [reflexivity|].
  symmetry. apply Hb. intros s Hs. apply Hfull. lia.
Qed.

(** Otherwise it returns a station: the first of up to nine draws that does
    not hold exactly three, or, when all nine do, the first station under
    capacity in ascending order. *)
Lemma find_random_available_free rand lst w :
  has_stations lst -> ~ all_full lst ->
  exists k, (k <= 8)%nat /\
    (forall i, (i < k)%nat -> load lst (draw rand (rng_pos w + i)) = 3%nat) /\
    ((load lst (draw rand (rng_pos w + k)) <> 3%nat /\
      find_random_available rand lst w =
        (Ok (draw rand (rng_pos w + k)), advance (S k) w)) \/
     (load lst (draw rand (rng_pos w + k)) = 3%nat /\ k = 8%nat /\
      exists s, first_under lst s /\
        find_random_available rand lst w = (Ok s, advance 9 w))).
Proof.
  intros Hst Hnf.
  assert (Hpres : forall s, 1 <= s < 1 + Z.of_nat 8 -> dict_get lst s <> None).
  { intros s Hs. apply Hst. lia. }
  assert (Hscan : scan_all_full (range 1 8) lst = Ok false).
  { destruct (scan_all_full_spec lst 8 1 Hpres) as (b & -> & Hb).
    destruct b; [|reflexivity].
    exfalso. apply Hnf. intros s Hs. apply Hb; [reflexivity | lia]. }
  set (w1 := mkWorld (S (rng_pos w)) (new_state w) (stdout w) (history w)).
  destruct (random_search_spec rand lst Hst 8 (1 + rand (rng_pos w) mod 8) w1
              (draw_range rand (rng_pos w))) as (k & Hk & Heq & Hall & Hlast).
  assert (Hc : forall i, candidate rand (1 + rand (rng_pos w) mod 8) (rng_pos w1) i
                         = draw rand (rng_pos w + i)).
  { intros [|i]; simpl.
    - unfold draw. now rewrite Nat.add_0_r.
    - f_equal. lia. }
  assert (Hw : forall j, advance j w1 = advance (S j) w).
  { intros j. unfold advance, w1. simpl. f_equal. lia. }
  rewrite Hc, Hw in Heq.
  destruct (subscript_load lst (draw rand (rng_pos w + k))) as (l & Hsub & Hl).
  { apply Hst, draw_range. }
  assert (Hrun : find_random_available rand lst w =
                 if (length l =? 3)%nat
                 then (first_available (range 1 8) lst (draw rand (rng_pos w + k)),
                       advance (S k) w)
                 else (Ok (draw rand (rng_pos w + k)), advance (S k) w)).
  { unfold find_random_available, bind, lift, randomize.
    rewrite Hscan. fold w1. rewrite Heq, Hsub.
    now destruct (length l =? 3)%nat. }
  exists k. split; [assumption|]. split.
  { intros i Hi. rewrite <- Hc. now apply Hall. }
  rewrite Hrun.
  destruct (Nat.eqb_spec (length l) 3) as [H3|H3]; rewrite Hl in H3.
  - right. split; [assumption|].
    assert (k = 8%nat) as -> by (apply Hlast; now rewrite Hc).
    split; [reflexivity|].
    assert (Hsome : exists s, 1 <= s < 1 + Z.of_nat 8 /\ (load lst s < 3)%nat).
    { assert (D : forall n a,
                (forall s, a <= s < a + Z.of_nat n -> (3 <= load lst s)%nat)
                \/ exists s, a <= s < a + Z.of_nat n /\ (load lst s < 3)%nat).
      { induction n as [|n IH]; intros a.
        - left. intros s Hs. lia.
        - destruct (le_lt_dec 3 (load lst a)) as [Hge|Hlt].
          + destruct (IH (a + 1)) as [Hall'|(s & Hs & Hls)].
            * left. intros s Hs. destruct (Z.eq_dec s a) as [->|]; [assumption|].
              apply Hall'. lia.
            * right. exists s. split; [lia | assumption].
          + right. exists a. split; [lia | assumption]. }
      destruct (D 8%nat 1) as [Hall'|Hsome]; [|assumption].
      exfalso. apply Hnf. intros s Hs. apply Hall'. lia. }
    destruct (first_available_spec lst (draw rand (rng_pos w + 8)) 8 1 Hpres Hsome)
      as (s & Hfa & Hs & Hls & Hfirst).
    exists s. split.
    + unfold first_under. repeat split; try lia. intros s' Hs'. apply Hfirst. lia.
    + now rewrite Hfa.
  - left. now split.
Qed.

Lemma all_full_dec lst : has_stations lst -> all_full lst \/ ~ all_full lst.
Proof.
  intros Hst. destruct (scan_all_full_spec lst 8 1) as (b & _ & Hb).
  { intros s Hs. apply Hst. lia. }
  destruct b.
  - left. intros s Hs. apply Hb; [reflexivity | lia].
  - right. intros H. assert (false = true); [|discriminate].
    apply Hb. intros s Hs. apply H. lia.
Qed.

(** Under the capacity invariant the helper either raises, with every
    station full and no draw consumed, or returns a station with room. *)
Lemma find_random_available_cases rand lst w :
  has_stations lst -> within_capacity lst ->
  (all_full lst /\ find_random_available rand lst w = (Raise ValueError, w)) \/
  (~ all_full lst /\
   exists s k, find_random_available rand lst w = (Ok s, advance k w) /\
               1 <= s <= 8 /\ (load lst s < 3)%nat).
Proof.
  intros Hst Hcap. destruct (all_full_dec lst Hst) as [Hf|Hnf].
  - left. split; [assumption|]. now apply find_random_available_full.
  - right. split; [assumption|].
    destruct (find_random_available_free rand lst w Hst Hnf)
      as (k & Hk & _ & [(Hne & Heq)|(_ & _ & s & (Hs & Hl & _) & Heq)]).
    + exists (draw rand (rng_pos w + k)), (S k). split; [assumption|].
      pose proof (draw_range rand (rng_pos w + k)) as Hr. split; [assumption|].
      specialize (Hcap _ Hr). lia.
    + exists s, 9%nat. now repeat split.
Qed.

(** ** The helper [_assign_station_for_student] *)

Lemma avoid_search_cases rand group lst :
  has_stations lst -> within_capacity lst -> ~ all_full lst ->
  forall budget a w, 1 <= a <= 8 -> (load lst a < 3)%nat ->
  exists s k, avoid_search rand budget group lst a w = (Ok s, advance k w) /\
              1 <= s <= 8 /\ (load lst s < 3)%nat.
Proof.
  intros Hst Hcap Hnf. induction budget as [|b IH]; intros a w Ha Hla; simpl;
    unfold bind at 1; unfold lift;
    destruct (subscript_load lst a) as (l & -> & Hl); try (now apply Hst);
    destruct (negb (check_not_in_list group l)).
  - exists a, O. rewrite advance_0. now repeat split.
  - exists a, O. rewrite advance_0. now repeat split.
  - unfold bind.
    destruct (find_random_available_cases rand lst w Hst Hcap)
      as [(Hf & _)|(_ & s & k & -> & Hs & Hls)]; [contradiction|].
    destruct (IH s (advance k w) Hs Hls) as (s' & k' & -> & Hs' & Hls').
    exists s', (k' + k)%nat. rewrite advance_advance. now repeat split.
  - exists a, O. rewrite advance_0. now repeat split.
Qed.

Lemma assign_station_cases rand st group lst w :
  has_stations lst -> within_capacity lst ->
  (all_full lst /\
   _assign_station_for_student rand st group lst w = (Raise ValueError, w)) \/
  (~ all_full lst /\
   exists s k, _assign_station_for_student rand st group lst w
                 = (Ok s, advance k w) /\
               1 <= s <= 8 /\ (load lst s < 3)%nat).
Proof.
  intros Hst Hcap. unfold _assign_station_for_student, bind.
  destruct (find_random_available_cases rand lst w Hst Hcap)
    as [(Hf & ->)|(Hnf & s & k & -> & Hs & Hls)].
  - now left.
  - right. split; [assumption|].
    destruct (avoid_search_cases rand group lst Hst Hcap Hnf 15 s (advance k w) Hs Hls)
      as (s' & k' & -> & Hs' & Hls').
    exists s', (k' + k)%nat. rewrite advance_advance. now repeat split.
Qed.

(** ** One placement *)

Lemma append_student_ok s st k w :
  dict_get (new_state w) s <> None ->
  bind (append_student s st) (fun _ => print (PrintAssigned st s)) (advance k w)
  = (Ok tt, placed st s k w).
Proof.
  intros H. unfold bind, append_student, print. simpl.
  destruct (dict_get (new_state w) s); [reflexivity | contradiction].
Qed.

Lemma place_free_outcome rand st w :
  sane w -> outcome st w (place_free rand st w).
Proof.
  intros [Hst Hcap]. unfold place_free. unfold bind at 1. unfold read_new_state.
  unfold bind at 1.
  destruct (find_random_available_cases rand (new_state w) w Hst Hcap)
    as [(Hf & ->)|(Hnf & s & k & -> & Hs & Hls)].
  - now apply out_raised.
  - rewrite append_student_ok by now apply Hst. now apply out_placed.
Qed.

Lemma place_constrained_outcome rand group st w :
  sane w -> outcome st w (place_constrained rand group st w).
Proof.
  intros [Hst Hcap]. unfold place_constrained, try_except_ValueError.
  unfold bind at 1. unfold read_new_state. unfold bind at 1.
  destruct (assign_station_cases rand st group (new_state w) w Hst Hcap)
    as [(Hf & ->)|(Hnf & s & k & -> & Hs & Hls)].
  - now apply out_failed.
  - rewrite append_student_ok by now apply Hst. now apply out_placed.
Qed.

(** A nonzero group never lets the capacity error escape. *)
Lemma place_constrained_contains rand group st w :
  sane w -> fst (place_constrained rand group st w) = Ok tt.
Proof.
  intros [Hst Hcap]. unfold place_constrained, try_except_ValueError.
  unfold bind at 1. unfold read_new_state. unfold bind at 1.
  destruct (assign_station_cases rand st group (new_state w) w Hst Hcap)
    as [(Hf & ->)|(Hnf & s & k & -> & Hs & Hls)].
  - reflexivity.
  - now rewrite append_student_ok by now apply Hst.
Qed.

Lemma sane_placed st s k w :
  1 <= s <= 8 -> (load (new_state w) s < 3)%nat -> sane w ->
  sane (placed st s k w).
Proof.
  intros Hs Hl [Hst Hcap]. split; simpl.
  - now apply has_stations_append.
  - apply within_capacity_append; auto.
Qed.

(** ** Loops *)

(** The rule for a [for] loop: an invariant [I] over what is left to do and
    the store, and a postcondition [Q] that an escaping exception must meet
    too. *)
Lemma for_each_rule {S A} (body : A -> M S unit)
    (I : list A -> S -> Prop) (Q : result unit * S -> Prop) :
  (forall s, I [] s -> Q (Ok tt, s)) ->
  (forall x rest s, I (x :: rest) s ->
     match body x s with
     | (Ok _, s') => I rest s'
     | (Raise e, s') => Q (Raise e, s')
     end) ->
  forall xs s, I xs s -> Q (for_each xs body s).
Proof.
  intros Hnil Hstep. induction xs as [|x xs IH]; intros s HI; simpl.
  - now apply Hnil.
  - unfold bind. specialize (Hstep x xs s HI).
    destruct (body x s) as [[[]|e] s']; [now apply IH | assumption].
Qed.

(** ** The capacity invariant *)

Lemma linked_snoc d0 h d s st :
  linked d0 h d ->
  linked d0 (h ++ [mkPlacement d s st]) (dict_append d s st).
Proof.
  revert d0. induction h as [|p h IH]; intros d0; simpl.
  - intros ->. now split.
  - intros [Hb Hl]. split; [assumption | now apply IH].
Qed.

Lemma good_outcome st w out : good w -> outcome st w out -> good (snd out).
Proof.
  intros (Hsane & Hlink & Hall) [s k Hs Hl|Hf|Hf]; simpl.
  - split; [now apply sane_placed|]. split; [now apply linked_snoc|].
    apply Forall_app. split; [assumption|]. constructor; [|constructor].
    destruct Hsane as [Hst Hcap]. unfold sound_placement, after. simpl.
    repeat split; try assumption; try lia.
    apply within_capacity_append; auto.
  - split; [exact Hsane|]. split; [exact Hlink | exact Hall].
  - split; [exact Hsane|]. split; [exact Hlink | exact Hall].
Qed.

Lemma good_print e w : good w -> good (snd (print e w)).
Proof. intros H. exact H. Qed.

Lemma good_students (body : nat -> M world unit) :
  (forall st w, sane w -> outcome st w (body st w)) ->
  forall students w, good w -> good (snd (for_each students body w)).
Proof.
  intros Hbody students w Hw.
  apply (for_each_rule body (fun _ w => good w) (fun out => good (snd out)));
    [auto | | assumption].
  intros st rest w0 Hw0.
  pose proof (good_outcome st w0 _ Hw0 (Hbody st w0 (proj1 Hw0))) as H.
  now destruct (body st w0) as [[[]|e] w1].
Qed.

Lemma good_group rand entry w :
  good w -> good (snd (distribute_group rand entry w)).
Proof.
  intros Hw. destruct entry as [key [|st students]]; [exact Hw|].
  unfold distribute_group. unfold bind at 1.
  simpl (print _ w).
  destruct (negb (key =? 0)).
  - apply good_students; [|exact Hw].
    intros. now apply place_constrained_outcome.
  - apply good_students; [|exact Hw].
    intros. now apply place_free_outcome.
Qed.

Lemma good_distribute rand previous_state w :
  good w -> good (snd (_distribute_students rand previous_state w)).
Proof.
  intros Hw. unfold _distribute_students.
  apply (for_each_rule (distribute_group rand)
           (fun _ w => good w) (fun out => good (snd out)));
    [auto | | assumption].
  intros entry rest w0 Hw0.
  pose proof (good_group rand entry w0 Hw0) as H.
  now destruct (distribute_group rand entry w0) as [[[]|e] w1].
Qed.

Lemma empty_state_sane : sane initial_world.
Proof.
  split; intros s Hs; simpl;
    assert (s = 1 \/ s = 2 \/ s = 3 \/ s = 4 \/ s = 5 \/ s = 6 \/ s = 7 \/ s = 8)
      as [->|[->|[->|[->|[->|[->|[->| ->]]]]]]] by lia;
    first [discriminate | unfold load; simpl; lia].
Qed.

Lemma initial_world_good : good initial_world.
Proof. split; [apply empty_state_sane|]. split; [reflexivity | constructor]. Qed.

(** C1. Capacity invariant.  Whatever the previous state and the random
    draws, and whether the run completes or is cut short by an exception:
    the mutations of [new_state] form a chain from the empty dictionary to
    the final one; every one of them appends to a station 1..8 that held
    fewer than three students, with no station above three before or after
    it; and in the final [new_state] every station 1..8 is present and holds
    at most three. *)
Theorem capacity_invariant (rand : nat -> Z) (previous_state : dict) :
  let w := snd (allocate rand previous_state) in
  within_capacity empty_state /\
  linked empty_state (history w) (new_state w) /\
  Forall sound_placement (history w) /\
  has_stations (new_state w) /\
  within_capacity (new_state w).
Proof.
  intros w.
  destruct (good_distribute rand previous_state _ initial_world_good)
    as ((Hst & Hcap) & Hlink & Hall).
  repeat split; try assumption.
  apply empty_state_sane.
Qed.

(** ** Conservation *)

Lemma shaped_append d k x : shaped d -> shaped (dict_append d k x).
Proof.
  unfold shaped. intros <-. induction d as [|[k' l] d IH]; simpl; [reflexivity|].
  destruct (k' =? k); simpl; [reflexivity | now rewrite IH].
Qed.

Lemma shaped_entries d :
  shaped d ->
  exists l0 l1 l2 l3 l4 l5 l6 l7 l8,
    d = [(0, l0); (1, l1); (2, l2); (3, l3); (4, l4); (5, l5); (6, l6);
         (7, l7); (8, l8)].
Proof.
  unfold shaped. simpl. intros H.
  do 9 (destruct d as [|[? ?] d]; [discriminate|]; simpl in H;
        injection H as -> H).
  destruct d; [|discriminate].
  now eexists _, _, _, _, _, _, _, _, _.
Qed.

(** A full house holds at least 24 students. *)
Lemma all_full_count d :
  shaped d -> all_full d -> (24 <= length (items d))%nat.
Proof.
  intros Hsh Hf.
  destruct (shaped_entries d Hsh)
    as (l0 & l1 & l2 & l3 & l4 & l5 & l6 & l7 & l8 & ->).
  pose proof (Hf 1 ltac:(lia)) as H1. pose proof (Hf 2 ltac:(lia)) as H2.
  pose proof (Hf 3 ltac:(lia)) as H3. pose proof (Hf 4 ltac:(lia)) as H4.
  pose proof (Hf 5 ltac:(lia)) as H5. pose proof (Hf 6 ltac:(lia)) as H6.
  pose proof (Hf 7 ltac:(lia)) as H7. pose proof (Hf 8 ltac:(lia)) as H8.
  unfold load in *. simpl in *. unfold items. simpl.
  repeat rewrite length_app. lia.
Qed.

Lemma conserve_students (body : nat -> M world unit) :
  (forall st w, sane w -> outcome st w (body st w)) ->
  forall tgt extra students w,
    (length tgt <= 24)%nat -> sane w -> shaped (new_state w) ->
    Permutation (students ++ extra ++ items (new_state w)) tgt ->
    exists w', for_each students body w = (Ok tt, w') /\ sane w' /\
               shaped (new_state w') /\
               Permutation (extra ++ items (new_state w')) tgt.
Proof.
  intros Hbody tgt extra students w Hlen Hsane Hsh Hperm.
  apply (for_each_rule body
           (fun rest w => sane w /\ shaped (new_state w) /\
              Permutation (rest ++ extra ++ items (new_state w)) tgt)
           (fun out => exists w', out = (Ok tt, w') /\ sane w' /\
              shaped (new_state w') /\
              Permutation (extra ++ items (new_state w')) tgt)).
  - intros w0 (H1 & H2 & H3). now exists w0.
  - intros st rest w0 (H1 & H2 & H3).
    assert (Hroom : ~ all_full (new_state w0)).
    { intros Hf. pose proof (all_full_count _ H2 Hf) as Hc.
      apply Permutation_length in H3. simpl in H3.
      repeat rewrite length_app in H3. lia. }
    destruct (Hbody st w0 H1) as [s k Hs Hl|Hf|Hf]; try contradiction.
    split; [now apply sane_placed|]. split; [now apply shaped_append|].
    simpl. rewrite <- H3.
    rewrite (items_append (new_state w0) s st) by (now apply H1).
    simpl. rewrite app_assoc.
    rewrite <- Permutation_middle. now rewrite <- app_assoc.
  - split; [exact Hsane|]. split; [exact Hsh | exact Hperm].
Qed.

Lemma conserve_groups rand tgt :
  (length tgt <= 24)%nat ->
  forall previous_state w,
    sane w -> shaped (new_state w) ->
    Permutation (items previous_state ++ items (new_state w)) tgt ->
    exists w', _distribute_students rand previous_state w = (Ok tt, w') /\
               Permutation (items (new_state w')) tgt.
Proof.
  intros Hlen previous_state w Hsane Hsh Hperm.
  apply (for_each_rule (distribute_group rand)
           (fun rest w => sane w /\ shaped (new_state w) /\
              Permutation (items rest ++ items (new_state w)) tgt)
           (fun out => exists w', out = (Ok tt, w') /\
              Permutation (items (new_state w')) tgt)).
  - intros w0 (H1 & H2 & H3). now exists w0.
  - intros [key students] rest w0 (H1 & H2 & H3).
    unfold items in H3. simpl in H3. fold (items rest) in H3.
    rewrite <- app_assoc in H3.
    destruct students as [|st students].
    { simpl. split; [exact H1|]. split; [exact H2 | exact H3]. }
    unfold distribute_group. unfold bind at 1. unfold print at 1.
    set (w1 := mkWorld (rng_pos w0) (new_state w0)
                 (stdout w0 ++ [PrintGroup key (st :: students)]) (history w0)).
    assert (Hw1 : sane w1) by exact H1.
    fold (items (new_state w0)) in H3.
    assert (Hb : exists w', (if negb (key =? 0)
                  then for_each (st :: students)
                         (place_constrained rand (st :: students))
                  else for_each (st :: students) (place_free rand)) w1
                 = (Ok tt, w') /\ sane w' /\ shaped (new_state w') /\
                 Permutation (items rest ++ items (new_state w')) tgt).
    { destruct (negb (key =? 0)).
      - apply conserve_students; auto.
        intros. now apply place_constrained_outcome.
      - apply conserve_students; auto.
        intros. now apply place_free_outcome. }
    destruct Hb as (w' & -> & Hb). exact Hb.
  - split; [exact Hsane|]. split; [exact Hsh | exact Hperm].
Qed.

(** A property of worlds that placements, failures and headers keep is kept
    by a whole run, however it ends. *)
Lemma distribute_invariant rand (P : world -> Prop) :
  (forall st s k w, sane w -> P w -> 1 <= s <= 8 ->
                    (load (new_state w) s < 3)%nat -> P (placed st s k w)) ->
  (forall st w, sane w -> P w -> P (failed st w)) ->
  (forall key students w,
     sane w -> P w -> P (snd (print (PrintGroup key students) w))) ->
  forall previous_state w,
    sane w -> P w ->
    sane (snd (_distribute_students rand previous_state w)) /\
    P (snd (_distribute_students rand previous_state w)).
Proof.
  intros Hplaced Hfailed Hprint.
  assert (Hout : forall st w out, sane w -> P w -> outcome st w out ->
                                  sane (snd out) /\ P (snd out)).
  { intros st w out Hs Hp [s k Hs' Hl|Hf|Hf]; simpl.
    - split; [now apply sane_placed | now apply Hplaced].
    - split; [exact Hs | now apply Hfailed].
    - now split. }
  assert (Hloop : forall body : nat -> M world unit,
             (forall st w, sane w -> outcome st w (body st w)) ->
             forall students w, sane w -> P w ->
               sane (snd (for_each students body w)) /\
               P (snd (for_each students body w))).
  { intros body Hbody students w Hs Hp.
    apply (for_each_rule body (fun _ w => sane w /\ P w)
             (fun out => sane (snd out) /\ P (snd out))); [auto | | now split].
    intros st rest w0 [Hs0 Hp0].
    pose proof (Hout st w0 _ Hs0 Hp0 (Hbody st w0 Hs0)) as H.
    now destruct (body st w0) as [[[]|e] w1]. }
  intros previous_state w Hs Hp. unfold _distribute_students.
  apply (for_each_rule (distribute_group rand) (fun _ w => sane w /\ P w)
           (fun out => sane (snd out) /\ P (snd out))); [auto | | now split].
  intros [key students] rest w0 [Hs0 Hp0].
  assert (H : sane (snd (distribute_group rand (key, students) w0)) /\
              P (snd (distribute_group rand (key, students) w0))).
  { destruct students as [|st students]; [now split|].
    unfold distribute_group. unfold bind at 1.
    pose proof (Hprint key (st :: students) w0 Hs0 Hp0) as Hp1.
    assert (Hs1 : sane (snd (print (PrintGroup key (st :: students)) w0)))
      by exact Hs0.
    unfold print at 1. unfold print in Hp1, Hs1. simpl snd in Hp1, Hs1.
    destruct (negb (key =? 0)).
    - apply Hloop; auto. intros. now apply place_constrained_outcome.
    - apply Hloop; auto. intros. now apply place_free_outcome. }
  now destruct (distribute_group rand (key, students) w0) as [[[]|e] w1].
Qed.

(** A run on at most 24 row indices, from any position of the generator:
    it returns, with every row index in a station 1..8. *)
Lemma allocation_returns rand pos previous_state :
  (length (items previous_state) <= 24)%nat ->
  exists w,
    _distribute_students rand previous_state (mkWorld pos empty_state [] [])
      = (Ok tt, w) /\
    shaped (new_state w) /\ members (new_state w) 0 = [] /\
    within_capacity (new_state w) /\
    Permutation (items (new_state w)) (items previous_state).
Proof.
  intros Hlen.
  set (w0 := mkWorld pos empty_state [] []).
  assert (Hs0 : sane w0) by exact empty_state_sane.
  destruct (conserve_groups rand (items previous_state) Hlen previous_state
              w0 Hs0 eq_refl) as (w & Hrun & Hperm).
  { simpl. now rewrite app_nil_r. }
  exists w. split; [exact Hrun|].
  destruct (distribute_invariant rand
              (fun w => shaped (new_state w) /\ members (new_state w) 0 = []))
    with (previous_state := previous_state) (w := w0)
    as ([_ Hcap] & Hsh & H0).
  - intros st s k w1 _ [Hsh H0] Hs _. simpl. split; [now apply shaped_append|].
    unfold members. rewrite dict_get_append_other by lia. exact H0.
  - intros st w1 _ H. exact H.
  - intros key students w1 _ H. exact H.
  - exact Hs0.
  - split; reflexivity.
  - rewrite Hrun in Hcap, Hsh, H0. simpl in Hcap, Hsh, H0. now repeat split.
Qed.

(** A dictionary with the keys 0..8 lists what its group 0 and its stations
    list. *)
Lemma items_stationed d :
  shaped d -> items d = members d 0 ++ stationed d.
Proof.
  intros Hsh.
  destruct (shaped_entries d Hsh)
    as (l0 & l1 & l2 & l3 & l4 & l5 & l6 & l7 & l8 & ->).
  unfold items, stationed, members. simpl. now rewrite !app_nil_r.
Qed.

Lemma in_stationed d i :
  In i (stationed d) <-> exists s, 1 <= s <= 8 /\ In i (members d s).
Proof.
  unfold stationed. rewrite in_flat_map. split.
  - intros (s & Hs & Hi). exists s. split; [|exact Hi].
    apply in_range in Hs. simpl in Hs. lia.
  - intros (s & Hs & Hi). exists s. split; [|exact Hi].
    apply in_range. simpl. lia.
Qed.

(** C2. Conservation.  For every previous state that lists at most 24 row
    indices in all, whatever the random draws, the allocation returns without
    raising, and the row indices held by the final [new_state] are those of
    the previous state, each as many times as it is listed there (a
    permutation): none is lost, none is duplicated, and the totals agree.
    They are held by the stations 1..8: the final [new_state] has the keys
    0..8, nothing under key 0, and its stations 1..8 together list the row
    indices of the previous state, each as many times as it is listed
    there; so every row index of the previous state is in a station. *)
Theorem conservation (rand : nat -> Z) (previous_state : dict) :
  (length (items previous_state) <= 24)%nat ->
  exists w,
    allocate rand previous_state = (Ok tt, w) /\
    Permutation (items (new_state w)) (items previous_state) /\
    length (items (new_state w)) = length (items previous_state) /\
    shaped (new_state w) /\
    members (new_state w) 0 = [] /\
    Permutation (stationed (new_state w)) (items previous_state) /\
    length (stationed (new_state w)) = length (items previous_state) /\
    (forall i, In i (items previous_state) ->
               exists s, 1 <= s <= 8 /\ In i (members (new_state w) s)).
Proof.
  intros Hlen.
  destruct (allocation_returns rand 0 previous_state Hlen)
    as (w & Hrun & Hsh & H0 & _ & Hperm).
  assert (Hst : Permutation (stationed (new_state w)) (items previous_state)).
  { rewrite <- Hperm, (items_stationed _ Hsh), H0. reflexivity. }
  exists w. split; [exact Hrun|]. split; [exact Hperm|].
  split; [now apply Permutation_length|].
  split; [exact Hsh|]. split; [exact H0|]. split; [exact Hst|].
  split; [now apply Permutation_length|].
  intros i Hi. apply in_stationed.
  now apply (Permutation_in _ (Permutation_sym Hst)).
Qed.

Lemma conservation_witness :
  exists w,
    allocate counting sample_previous_state = (Ok tt, w) /\
    Permutation (items (new_state w)) (items sample_previous_state) /\
    length (items (new_state w)) = length (items sample_previous_state) /\
    shaped (new_state w) /\
    members (new_state w) 0 = [] /\
    Permutation (stationed (new_state w)) (items sample_previous_state) /\
    length (stationed (new_state w)) = length (items sample_previous_state) /\
    (forall i, In i (items sample_previous_state) ->
               exists s, 1 <= s <= 8 /\ In i (members (new_state w) s)).
Proof. apply conservation. simpl. lia. Defined.

(** ** Processing order *)

Lemma order_students (body : nat -> M world unit) :
  (forall st w, sane w -> outcome st w (body st w)) ->
  forall tgt extra students w,
    sane w ->
    map action_of (stdout w) ++ map Attempt students ++ extra = tgt ->
    match for_each students body w with
    | (Ok _, w') => sane w' /\ map action_of (stdout w') ++ extra = tgt
    | (Raise _, w') => exists rest, map action_of (stdout w') ++ rest = tgt
    end.
Proof.
  intros Hbody tgt extra students w Hsane Heq.
  apply (for_each_rule body
           (fun rest w => sane w /\
              map action_of (stdout w) ++ map Attempt rest ++ extra = tgt)
           (fun out =>
              match out with
              | (Ok _, w') => sane w' /\ map action_of (stdout w') ++ extra = tgt
              | (Raise _, w') => exists rest, map action_of (stdout w') ++ rest = tgt
              end)).
  - intros w0 H. exact H.
  - intros st rest w0 [H1 H2].
    destruct (Hbody st w0 H1) as [s k Hs Hl|Hf|Hf].
    + split; [now apply sane_placed|]. simpl.
      rewrite map_app, <- app_assoc. exact H2.
    + split; [exact H1|]. simpl.
      rewrite map_app, <- app_assoc. exact H2.
    + eexists. exact H2.
  - split; assumption.
Qed.

Lemma order_groups rand tgt previous_state w :
  sane w ->
  map action_of (stdout w) ++ schedule previous_state = tgt ->
  exists rest,
    map action_of (stdout (snd (_distribute_students rand previous_state w)))
      ++ rest = tgt /\
    (fst (_distribute_students rand previous_state w) = Ok tt -> rest = []).
Proof.
  intros Hsane Heq.
  apply (for_each_rule (distribute_group rand)
           (fun rest w => sane w /\
              map action_of (stdout w) ++ schedule rest = tgt)
           (fun out => exists rest,
              map action_of (stdout (snd out)) ++ rest = tgt /\
              (fst out = Ok tt -> rest = []))).
  - intros w0 [H1 H2]. exists []. simpl in *. split; [exact H2 | reflexivity].
  - intros [key students] rest w0 [H1 H2].
    destruct students as [|st students]; [split; [exact H1 | exact H2]|].
    unfold distribute_group. unfold bind at 1. unfold print at 1.
    set (w1 := mkWorld (rng_pos w0) (new_state w0)
                 (stdout w0 ++ [PrintGroup key (st :: students)]) (history w0)).
    assert (Hw1 : sane w1) by exact H1.
    assert (Hq : map action_of (stdout w1)
                 ++ map Attempt (st :: students) ++ schedule rest = tgt).
    { unfold w1. simpl stdout. rewrite map_app, <- app_assoc. exact H2. }
    assert (Hb : forall body : nat -> M world unit,
               (forall st w, sane w -> outcome st w (body st w)) ->
               match for_each (st :: students) body w1 with
               | (Ok _, s') => sane s' /\
                   map action_of (stdout s') ++ schedule rest = tgt
               | (Raise e, s') => exists rest0,
                   map action_of (stdout (snd (@Raise unit e, s'))) ++ rest0 = tgt /\
                   (fst (@Raise unit e, s') = Ok tt -> rest0 = [])
               end).
    { intros body Hbody.
      pose proof (order_students body Hbody tgt (schedule rest)
                    (st :: students) w1 Hw1 Hq) as H.
      destruct (for_each (st :: students) body w1) as [[[]|e] w2]; [exact H|].
      destruct H as (rest0 & H). exists rest0. split; [exact H | discriminate]. }
    destruct (negb (key =? 0)).
    + apply Hb. intros. now apply place_constrained_outcome.
    + apply Hb. intros. now apply place_free_outcome.
  - split; assumption.
Qed.

Lemma grows_students (body : nat -> M world unit) :
  (forall st w, sane w -> outcome st w (body st w)) ->
  forall students w, sane w ->
    exists more, stdout (snd (for_each students body w)) = stdout w ++ more.
Proof.
  intros Hbody students w Hsane.
  apply (for_each_rule body
           (fun _ w0 => sane w0 /\ exists more, stdout w0 = stdout w ++ more)
           (fun out => exists more, stdout (snd out) = stdout w ++ more)).
  - intros w0 [_ H]. exact H.
  - intros st rest w0 [H1 (more & H2)].
    destruct (Hbody st w0 H1) as [s k Hs Hl|Hf|Hf].
    + split; [now apply sane_placed|]. eexists. simpl. rewrite H2.
      now rewrite <- app_assoc.
    + split; [exact H1|]. eexists. simpl. rewrite H2. now rewrite <- app_assoc.
    + now exists more.
  - split; [exact Hsane|]. exists []. now rewrite app_nil_r.
Qed.

Lemma grows_group rand entry w :
  sane w ->
  exists more, stdout (snd (distribute_group rand entry w)) = stdout w ++ more.
Proof.
  intros Hsane. destruct entry as [key [|st students]].
  - exists []. simpl. now rewrite app_nil_r.
  - unfold distribute_group. unfold bind at 1. unfold print at 1.
    set (w1 := mkWorld (rng_pos w) (new_state w)
                 (stdout w ++ [PrintGroup key (st :: students)]) (history w)).
    assert (Hw1 : sane w1) by exact Hsane.
    assert (Hb : forall body : nat -> M world unit,
               (forall st w, sane w -> outcome st w (body st w)) ->
               exists more,
                 stdout (snd (for_each (st :: students) body w1))
                 = stdout w ++ more).
    { intros body Hbody.
      destruct (grows_students body Hbody (st :: students) w1 Hw1) as (more & H).
      eexists. rewrite H. unfold w1. simpl stdout. now rewrite <- app_assoc. }
    destruct (negb (key =? 0)).
    + apply Hb. intros. now apply place_constrained_outcome.
    + apply Hb. intros. now apply place_free_outcome.
Qed.

Lemma grows_groups rand previous_state w :
  good w ->
  exists more,
    stdout (snd (_distribute_students rand previous_state w)) = stdout w ++ more.
Proof.
  intros Hgood.
  apply (for_each_rule (distribute_group rand)
           (fun _ w0 => good w0 /\ exists more, stdout w0 = stdout w ++ more)
           (fun out => exists more, stdout (snd out) = stdout w ++ more)).
  - intros w0 [_ H]. exact H.
  - intros entry rest w0 [H1 (more & H2)].
    pose proof (good_group rand entry w0 H1) as Hg.
    destruct (grows_group rand entry w0 (proj1 H1)) as (more' & Hm).
    destruct (distribute_group rand entry w0) as [[[]|e] w1]; simpl in *.
    + split; [exact Hg|]. exists (more ++ more'). now rewrite Hm, H2, app_assoc.
    + exists (more ++ more'). now rewrite Hm, H2, app_assoc.
  - split; [exact Hgood|]. exists []. now rewrite app_nil_r.
Qed.

(** C3, as amended.  The groups of the previous state are processed in the
    order of the dictionary, which [template_function] builds with the keys
    0, 1, ..., 8: group 0 comes first, not last.  Whatever the draws, what
    is printed follows the schedule of the previous state (its non-empty
    groups in dictionary order, the students of each in list order), all of
    it when the run returns and a beginning of it when an exception cuts the
    run short; and when the dictionary starts with a non-empty group 0, the
    first line printed is the header of group 0. *)
Theorem processing_order (rand : nat -> Z) (previous_state : dict) :
  let out := allocate rand previous_state in
  (exists rest,
     schedule previous_state = map action_of (stdout (snd out)) ++ rest /\
     (fst out = Ok tt -> rest = [])) /\
  (forall st students others,
     previous_state = (0, st :: students) :: others ->
     hd_error (stdout (snd out)) = Some (PrintGroup 0 (st :: students))).
Proof.
  intros out. split.
  - destruct (order_groups rand (schedule previous_state) previous_state
                initial_world empty_state_sane eq_refl) as (rest & H1 & H2).
    exists rest. split; [symmetry; exact H1 | exact H2].
  - intros st students others ->. unfold out, allocate, _distribute_students.
    change (for_each ((0, st :: students) :: others) (distribute_group rand)
              initial_world)
      with (bind (distribute_group rand (0, st :: students))
              (fun _ => for_each others (distribute_group rand)) initial_world).
    unfold bind at 1.
    pose proof (good_group rand (0, st :: students) initial_world
                  initial_world_good) as Hg.
    assert (Hhead : exists more,
               stdout (snd (distribute_group rand (0, st :: students) initial_world))
               = PrintGroup 0 (st :: students) :: more).
    { unfold distribute_group. unfold bind at 1. unfold print at 1.
      change (negb (0 =? 0)) with false. cbv iota.
      match goal with
      | |- context [for_each _ _ ?w1] =>
          destruct (grows_students (place_free rand)
                      (fun st w H => place_free_outcome rand st w H)
                      (st :: students) w1 empty_state_sane) as (more & H)
      end.
      exists more. exact H. }
    destruct Hhead as (more & Hhead).
    destruct (distribute_group rand (0, st :: students) initial_world)
      as [[[]|e] w1]; simpl in Hhead, Hg.
    + destruct (grows_groups rand others w1 Hg) as (more' & H).
      unfold _distribute_students in H. cbv beta iota. rewrite H, Hhead.
      reflexivity.
    + simpl. now rewrite Hhead.
Qed.

(** C3, as stated, fails: with a student in group 0 and students in groups
    1 and 2, the header of group 0 is printed before those of groups 1
    and 2. *)
Lemma processing_order_counterexample :
  ~ zero_group_last (stdout (snd (allocate counting sample_previous_state))).
Proof.
  intros H.
  specialize (H 0%nat 3%nat [3; 4]%nat 1 [0; 1; 2]%nat eq_refl eq_refl
                ltac:(discriminate)).
  lia.
Qed.

Lemma processing_order_witness :
  hd_error (stdout (snd (allocate counting sample_previous_state)))
  = Some (PrintGroup 0 [3; 4]%nat).
Proof.
  exact (proj2 (processing_order counting sample_previous_state)
           3%nat [4%nat] _ eq_refl).
Defined.

(** ** Avoidance when every station has room *)

Lemma find_random_available_roomy rand lst w :
  has_stations lst -> roomy lst ->
  find_random_available rand lst w
  = (Ok (draw rand (rng_pos w)), advance 1 w).
Proof.
  intros Hst Hroom.
  assert (Hnf : ~ all_full lst).
  { intros Hf. specialize (Hf 1 ltac:(lia)). specialize (Hroom 1 ltac:(lia)). lia. }
  destruct (find_random_available_free rand lst w Hst Hnf)
    as (k & Hk & Hall & [(Hne & Heq)|(H3 & _)]).
  - destruct k as [|k].
    + now rewrite Nat.add_0_r in Heq.
    + specialize (Hall O ltac:(lia)).
      pose proof (Hroom _ (draw_range rand (rng_pos w + 0))). lia.
  - pose proof (Hroom _ (draw_range rand (rng_pos w + k))). lia.
Qed.

Lemma avoid_search_roomy rand group lst :
  has_stations lst -> roomy lst ->
  forall budget a w, 1 <= a <= 8 ->
  exists k, (k <= budget)%nat /\
    avoid_search rand budget group lst a w =
      (Ok (candidate rand a (rng_pos w) k), advance k w) /\
    (forall i, (i < k)%nat -> collides group lst (candidate rand a (rng_pos w) i)) /\
    (collides group lst (candidate rand a (rng_pos w) k) -> k = budget).
Proof.
  intros Hst Hroom. unfold collides, members.
  induction budget as [|b IH]; intros a w Ha; simpl;
    unfold bind at 1; unfold lift, subscript;
    pose proof (Hst a Ha) as Hpa;
    destruct (dict_get lst a) as [l|] eqn:Ea; try contradiction;
    destruct (check_not_in_list group l) eqn:Ec; cbn [negb].
  - exists O. rewrite advance_0. simpl. rewrite Ea.
    repeat split; try lia; congruence.
  - exists O. rewrite advance_0. simpl. rewrite Ea.
    repeat split; try lia; congruence.
  - exists O. rewrite advance_0. simpl. rewrite Ea.
    repeat split; try lia; congruence.
  - unfold bind. rewrite (find_random_available_roomy rand lst w Hst Hroom).
    destruct (IH (draw rand (rng_pos w)) (advance 1 w) (draw_range _ _))
      as (k & Hk & Heq & Hall & Hlast).
    assert (Hc : forall i, candidate rand (draw rand (rng_pos w))
                             (rng_pos (advance 1 w)) i
                           = candidate rand a (rng_pos w) (S i)).
    { intros [|i]; simpl.
      - now rewrite Nat.add_0_r.
      - f_equal. lia. }
    exists (S k). split; [lia|]. rewrite Heq, Hc, advance_advance.
    split; [do 2 f_equal; lia|]. split.
    + intros [|i] Hi; [simpl; now rewrite Ea|]. rewrite <- Hc. apply Hall. lia.
    + intros H. rewrite <- Hc in H. specialize (Hlast H). lia.
Qed.

Lemma place_constrained_roomy rand group st w :
  has_stations (new_state w) -> roomy (new_state w) ->
  exists k, (k <= 15)%nat /\
    place_constrained rand group st w
      = (Ok tt, placed st (draw rand (rng_pos w + k)) (S k) w) /\
    (forall i, (i < k)%nat ->
       collides group (new_state w) (draw rand (rng_pos w + i))) /\
    (collides group (new_state w) (draw rand (rng_pos w + k)) -> k = 15%nat).
Proof.
  intros Hst Hroom. unfold place_constrained, try_except_ValueError.
  unfold bind at 1. unfold read_new_state. unfold bind at 1.
  unfold _assign_station_for_student, bind at 1.
  rewrite (find_random_available_roomy rand (new_state w) w Hst Hroom).
  destruct (avoid_search_roomy rand group (new_state w) Hst Hroom 15
              (draw rand (rng_pos w)) (advance 1 w) (draw_range _ _))
    as (k & Hk & Heq & Hall & Hlast).
  assert (Hc : forall i, candidate rand (draw rand (rng_pos w))
                           (rng_pos (advance 1 w)) i
                         = draw rand (rng_pos w + i)).
  { intros [|i]; simpl.
    - now rewrite Nat.add_0_r.
    - f_equal. lia. }
  exists k. split; [assumption|]. rewrite Heq, Hc, advance_advance.
  replace (k + 1)%nat with (S k) by lia.
  rewrite append_student_ok by (apply Hst, draw_range).
  split; [reflexivity|]. split.
  - intros i Hi. rewrite <- Hc. now apply Hall.
  - intros H. apply Hlast. now rewrite Hc.
Qed.

Lemma members_append d k k' x :
  dict_get d k <> None ->
  members (dict_append d k x) k' =
  if k =? k' then members d k ++ [x] else members d k'.
Proof.
  intros H. unfold members. destruct (Z.eqb_spec k k') as [<-|Hne].
  - rewrite dict_get_append_same. destruct (dict_get d k); [reflexivity | contradiction].
  - now rewrite dict_get_append_other.
Qed.

Lemma load_members d s : load d s = length (members d s).
Proof. unfold load, members. now destruct (dict_get d s). Qed.

Lemma load_append_le d k x s :
  (load (dict_append d k x) s <= S (load d s))%nat.
Proof.
  unfold load. destruct (Z.eq_dec k s) as [<-|Hne].
  - rewrite dict_get_append_same. destruct (dict_get d k); simpl; [|lia].
    rewrite length_app. simpl. lia.
  - rewrite dict_get_append_other by assumption. lia.
Qed.

Lemma members_empty_state s : members empty_state s = [].
Proof.
  unfold members, empty_state. simpl.
  repeat match goal with
         | |- context [if ?b then _ else _] => destruct b
         end; reflexivity.
Qed.

(** C4, as amended.  In the scenario (group 1 is [[0; 1; 2]], the other
    groups are empty), for every sequence of draws the run returns without
    raising and without giving up a student, reads at most 33 draws, and
    places 0, 1 and 2 once each, in stations [s0], [s1], [s2] of 1..8.
    Student 0 takes the first draw.  Student 1 takes the first of the next
    16 draws that is not [s0], and the sixteenth if they all are [s0];
    student 2 takes the first of the 16 draws after that which is neither
    [s0] nor [s1], and the sixteenth if there is none.  So the three
    stations are pairwise distinct exactly when the 16 draws read for
    student 1 are not all [s0] and the 16 draws read for student 2 are not
    all [s0] or [s1]. *)
Theorem scenario_avoidance (rand : nat -> Z) :
  exists k1 k2 w,
    let s0 := draw rand 0 in
    let s1 := draw rand (1 + k1) in
    let s2 := draw rand (2 + k1 + k2) in
    allocate rand scenario = (Ok tt, w) /\
    new_state w =
      dict_append (dict_append (dict_append empty_state s0 0) s1 1) s2 2 /\
    stdout w = [PrintGroup 1 [0; 1; 2]%nat; PrintAssigned 0 s0;
                PrintAssigned 1 s1; PrintAssigned 2 s2] /\
    1 <= s0 <= 8 /\ 1 <= s1 <= 8 /\ 1 <= s2 <= 8 /\
    rng_pos w = (3 + k1 + k2)%nat /\
    settles rand [s0] 1 k1 /\
    settles rand [s0; s1] (2 + k1) k2 /\
    ((s0 <> s1 /\ s0 <> s2 /\ s1 <> s2) <->
     (escapes rand [s0] 1 /\ escapes rand [s0; s1] (2 + k1))).
Proof.
  set (group := [0; 1; 2]%nat).
  set (w0 := mkWorld 0 empty_state [PrintGroup 1 group] []).
  assert (Hrun : allocate rand scenario =
                 match for_each group (place_constrained rand group) w0 with
                 | (Ok _, w') => (Ok tt, w')
                 | (Raise e, w') => (Raise e, w')
                 end) by reflexivity.
  destruct empty_state_sane as [Hst0 Hcap0].
  assert (Hroom0 : roomy (new_state w0)).
  { intros s Hs. simpl. rewrite load_members, members_empty_state. simpl. lia. }
  destruct (place_constrained_roomy rand group 0 w0 Hst0 Hroom0)
    as (k0 & Hk0 & E0 & Hall0 & _).
  assert (k0 = 0%nat) as ->.
  { destruct k0 as [|k0]; [reflexivity|].
    specialize (Hall0 0%nat ltac:(lia)). unfold collides in Hall0.
    simpl new_state in Hall0. rewrite members_empty_state in Hall0.
    discriminate Hall0. }
  set (s0 := draw rand 0).
  change (draw rand (rng_pos w0 + 0)) with s0 in E0.
  set (w1 := placed 0 s0 1 w0) in *.
  assert (Hs0 : 1 <= s0 <= 8) by apply draw_range.
  assert (Hst1 : has_stations (new_state w1)) by now apply has_stations_append.
  assert (Hroom1 : roomy (new_state w1)).
  { intros s Hs. simpl.
    pose proof (load_append_le empty_state s0 0 s) as H.
    rewrite (load_members empty_state), members_empty_state in H. simpl in H. lia. }
  destruct (place_constrained_roomy rand group 1 w1 Hst1 Hroom1)
    as (k1 & Hk1 & E1 & Hall1 & Hlast1).
  change (rng_pos w1) with 1%nat in E1, Hall1, Hlast1.
  set (s1 := draw rand (1 + k1)) in *.
  set (w2 := placed 1 s1 (S k1) w1) in *.
  assert (Hs1 : 1 <= s1 <= 8) by apply draw_range.
  assert (Hst2 : has_stations (new_state w2)) by now apply has_stations_append.
  assert (Hroom2 : roomy (new_state w2)).
  { intros s Hs. simpl.
    pose proof (load_append_le (dict_append empty_state s0 0) s1 1 s) as H.
    pose proof (load_append_le empty_state s0 0 s) as H'.
    rewrite (load_members empty_state), members_empty_state in H'.
    simpl in H, H'. lia. }
  destruct (place_constrained_roomy rand group 2 w2 Hst2 Hroom2)
    as (k2 & Hk2 & E2 & Hall2 & Hlast2).
  assert (Hp2 : rng_pos w2 = (2 + k1)%nat) by (simpl; lia).
  rewrite Hp2 in E2, Hall2, Hlast2.
  set (s2 := draw rand (2 + k1 + k2)) in *.
  assert (Hs2 : 1 <= s2 <= 8) by apply draw_range.
  (* which stations collide with the group once 0, then 1, are placed *)
  assert (C1 : forall s, collides group (new_state w1) s <-> In s [s0]).
  { intros s. unfold collides.
    change (new_state w1) with (dict_append empty_state s0 0).
    rewrite members_append by (now apply Hst0).
    rewrite !members_empty_state. unfold group.
    destruct (Z.eqb_spec s0 s) as [Heq|Hne]; simpl; split;
      try tauto; try congruence. }
  assert (C2 : forall s, collides group (new_state w2) s <-> In s [s0; s1]).
  { intros s. unfold collides.
    change (new_state w2)
      with (dict_append (dict_append empty_state s0 0) s1 1).
    rewrite members_append by (now apply Hst1).
    rewrite !members_append by (now apply Hst0).
    rewrite !members_empty_state. unfold group.
    destruct (Z.eqb_spec s1 s) as [Heq1|Hne1];
      destruct (Z.eqb_spec s0 s) as [Heq0|Hne0];
      try destruct (Z.eqb_spec s0 s1) as [Heq01|Hne01];
      simpl; split; intros H; try tauto; try congruence;
      try (destruct H as [H|[H|[]]]; congruence). }
  assert (T1 : settles rand [s0] 1 k1).
  { split; [exact Hk1|]. split.
    - intros i Hi. apply C1. now apply Hall1.
    - intros H. apply Hlast1. now apply C1. }
  assert (T2 : settles rand [s0; s1] (2 + k1) k2).
  { split; [exact Hk2|]. split.
    - intros i Hi. apply C2. now apply Hall2.
    - intros H. apply Hlast2. now apply C2. }
  exists k1, k2, (placed 2 s2 (S k2) w2). cbv zeta.
  fold s0. fold s1. fold s2.
  split.
  { rewrite Hrun. unfold group at 1. simpl for_each. unfold bind.
    fold group. rewrite E0. fold w1. rewrite E1. fold w2. now rewrite E2. }
  split; [reflexivity|]. split; [reflexivity|].
  split; [assumption|]. split; [assumption|]. split; [assumption|].
  split; [simpl; lia|]. split; [exact T1|]. split; [exact T2|].
  split.
  - intros (N01 & N02 & N12). split.
    + exists k1. split; [lia|]. fold s1. intros [H|[]]. congruence.
    + exists k2. split; [lia|]. fold s2. intros [H|[H|[]]]; congruence.
  - intros [(i & Hi & Hfree1) (j & Hj & Hfree2)].
    assert (N1 : ~ In s1 [s0]).
    { intros Hin. destruct T1 as (_ & Hall & Hlast).
      specialize (Hlast Hin). apply Hfree1.
      destruct (Nat.eq_dec i 15) as [->|Hne].
      - now rewrite <- Hlast.
      - apply Hall. lia. }
    assert (N2 : ~ In s2 [s0; s1]).
    { intros Hin. destruct T2 as (_ & Hall & Hlast).
      specialize (Hlast Hin). apply Hfree2.
      destruct (Nat.eq_dec j 15) as [->|Hne].
      - now rewrite <- Hlast.
      - apply Hall. lia. }
    simpl in N1, N2. repeat split; intros E; [apply N1 | apply N2 | apply N2];
      rewrite E; tauto.
Qed.

(** C4, as stated, fails: when the generator keeps returning station 1, the
    retries are used up and students 0, 1 and 2 all land in station 1. *)
Lemma scenario_avoidance_counterexample :
  exists w,
    allocate (always 0) scenario = (Ok tt, w) /\
    members (new_state w) 1 = [0; 1; 2]%nat.
Proof.
  exists (snd (allocate (always 0) scenario)).
  split; vm_compute; reflexivity.
Qed.

(** With the draws 1, 2, 3, ... no retry is needed: students 0, 1 and 2 go
    to the stations 1, 2 and 3. *)
Lemma scenario_avoidance_witness :
  exists w,
    allocate counting scenario = (Ok tt, w) /\
    members (new_state w) 1 = [0%nat] /\
    members (new_state w) 2 = [1%nat] /\
    members (new_state w) 3 = [2%nat] /\
    escapes counting [draw counting 0] 1.
Proof.
  destruct (scenario_avoidance counting) as (k1 & k2 & w & H).
  cbv zeta in H.
  destruct H as (Hrun & Hns & Hout & H0 & H1 & H2 & Hpos & T1 & T2 & Hiff).
  assert (E : allocate counting scenario
              = (Ok tt, snd (allocate counting scenario)))
    by (vm_compute; reflexivity).
  rewrite E in Hrun. injection Hrun as <-.
  exists (snd (allocate counting scenario)). split; [exact E|].
  repeat split; try (vm_compute; reflexivity).
  cbn [stdout] in Hout.
  assert (Hs : draw counting 0 = 1 /\ draw counting (1 + k1) = 2 /\
               draw counting (2 + k1 + k2) = 3) by (repeat split; congruence).
  destruct Hs as (E0 & E1 & E2).
  apply Hiff. rewrite E0, E1, E2. repeat split; discriminate.
Defined.

(** ** Capacity errors *)

(** Within the capacity, a dictionary with the keys 0..8 lists at most 24
    students outside its group 0. *)
Lemma capacity_count d :
  shaped d -> within_capacity d -> (length (items d) <= 24 + load d 0)%nat.
Proof.
  intros Hsh Hcap.
  destruct (shaped_entries d Hsh)
    as (l0 & l1 & l2 & l3 & l4 & l5 & l6 & l7 & l8 & ->).
  pose proof (Hcap 1 ltac:(lia)) as H1. pose proof (Hcap 2 ltac:(lia)) as H2.
  pose proof (Hcap 3 ltac:(lia)) as H3. pose proof (Hcap 4 ltac:(lia)) as H4.
  pose proof (Hcap 5 ltac:(lia)) as H5. pose proof (Hcap 6 ltac:(lia)) as H6.
  pose proof (Hcap 7 ltac:(lia)) as H7. pose proof (Hcap 8 ltac:(lia)) as H8.
  change (load _ 1) with (length l1) in H1. change (load _ 2) with (length l2) in H2.
  change (load _ 3) with (length l3) in H3. change (load _ 4) with (length l4) in H4.
  change (load _ 5) with (length l5) in H5. change (load _ 6) with (length l6) in H6.
  change (load _ 7) with (length l7) in H7. change (load _ 8) with (length l8) in H8.
  change (load _ 0) with (length l0).
  unfold items. cbn [map snd concat].
  repeat rewrite length_app. cbn [length]. lia.
Qed.

(** The group-0 loop lets the capacity error out as soon as its students do
    not all fit; what it has printed by then concerns its own students. *)
Lemma place_free_overflow rand tgt :
  forall students w,
    sane w -> shaped (new_state w) -> load (new_state w) 0 = 0%nat ->
    (24 < length (items (new_state w)) + length students)%nat ->
    map action_of (stdout w) ++ map Attempt students = tgt ->
    exists w',
      for_each students (place_free rand) w = (Raise ValueError, w') /\
      exists rest, map action_of (stdout w') ++ rest = tgt.
Proof.
  induction students as [|st students IH]; intros w Hsane Hsh H0 Hcount Hlog.
  - pose proof (capacity_count _ Hsh (proj2 Hsane)). simpl in Hcount. lia.
  - cbn [for_each]. unfold bind.
    pose proof (place_free_outcome rand st w Hsane) as Hout.
    assert (Hnofail : place_free rand st w <> (Ok tt, failed st w)).
    { unfold place_free. unfold bind at 1. unfold read_new_state. unfold bind at 1.
      destruct Hsane as [Hst Hcap].
      destruct (find_random_available_cases rand (new_state w) w Hst Hcap)
        as [(_ & ->)|(_ & s & k & -> & Hs & _)]; [discriminate|].
      rewrite append_student_ok by now apply Hst.
      intros E. apply (f_equal (fun out => stdout (snd out))) in E.
      simpl in E. apply app_inv_head in E. discriminate. }
    inversion Hout as [s k Hs Hl E|Hf E|Hf E].
    + destruct (IH (placed st s k w)) as (w' & Hrun & Hrest).
      * now apply sane_placed.
      * now apply shaped_append.
      * simpl. rewrite load_append_other by lia. exact H0.
      * simpl new_state.
        rewrite (Permutation_length (items_append (new_state w) s st
                   (proj1 Hsane s Hs))).
        simpl in *. lia.
      * simpl stdout. rewrite map_app, <- app_assoc. exact Hlog.
      * exists w'. split; [exact Hrun | exact Hrest].
    + congruence.
    + exists w. split; [reflexivity|]. eexists. exact Hlog.
Qed.

(** C6, on the failing input: 25 students in group 0 and one in group 1.
    Whatever the draws, the students of group 0 fill every station, the
    [ValueError] that [find_random_available] raises for the next one is not
    caught on the group-0 path, and it leaves [_distribute_students]: the
    run is aborted and student 25, of group 1, is never dealt with.  (On the
    path of the nonzero groups the same error is caught and the loop goes
    on.) *)
Theorem capacity_error_escapes_group_zero (rand : nat -> Z) :
  let out := allocate rand overflow_previous_state in
  fst out = Raise ValueError /\
  ~ In (Attempt 25) (map action_of (stdout (snd out))).
Proof.
  set (w1 := mkWorld 0 empty_state [PrintGroup 0 (seq 0 25)] []).
  assert (Hrun : allocate rand overflow_previous_state =
                 match for_each (seq 0 25) (place_free rand) w1 with
                 | (Ok _, w') =>
                     for_each [(1, [25%nat]); (2, []); (3, []); (4, []);
                               (5, []); (6, []); (7, []); (8, [])]
                       (distribute_group rand) w'
                 | (Raise e, w') => (Raise e, w')
                 end) by reflexivity.
  destruct (place_free_overflow rand
              (Header 0 (seq 0 25) :: map Attempt (seq 0 25))
              (seq 0 25) w1 empty_state_sane eq_refl eq_refl)
    as (w' & Hloop & rest & Hlog); [simpl; lia | reflexivity |].
  cbn zeta. rewrite Hrun, Hloop. split; [reflexivity|].
  simpl snd. intros Hin.
  assert (Hin' : In (Attempt 25) (Header 0 (seq 0 25) :: map Attempt (seq 0 25))).
  { rewrite <- Hlog. apply in_or_app. now left. }
  simpl in Hin'.
  repeat (destruct Hin' as [Hin'|Hin']; [discriminate Hin'|]). exact Hin'.
Qed.

(** With the counter generator: 24 placements, then the exception. *)
Example capacity_error_after_24 :
  let out := allocate counting overflow_previous_state in
  fst out = Raise ValueError /\ length (history (snd out)) = 24%nat.
Proof. vm_compute. split; reflexivity. Qed.

(** On the path of the nonzero groups a whole group is worked through without
    an exception leaving the loop. *)
Lemma constrained_group_contained rand group students w :
  sane w ->
  fst (for_each students (place_constrained rand group) w) = Ok tt.
Proof.
  intros Hsane.
  apply (for_each_rule (place_constrained rand group)
           (fun _ w => sane w) (fun out => fst out = Ok tt)).
  - reflexivity.
  - intros st rest w0 H0.
    pose proof (place_constrained_contains rand group st w0 H0) as Hc.
    destruct (place_constrained_outcome rand group st w0 H0) as [s k Hs Hl|Hf|Hf].
    + now apply sane_placed.
    + exact H0.
    + discriminate Hc.
  - exact Hsane.
Qed.


Lemma first_full_state_has_stations : has_stations first_full_state.
Proof.
  intros s Hs.
  assert (s = 1 \/ s = 2 \/ s = 3 \/ s = 4 \/ s = 5 \/ s = 6 \/ s = 7 \/ s = 8)
    as [->|[->|[->|[->|[->|[->|[->| ->]]]]]]] by lia; discriminate.
Qed.

Lemma first_full_state_within_capacity : within_capacity first_full_state.
Proof.
  intros s Hs.
  assert (s = 1 \/ s = 2 \/ s = 3 \/ s = 4 \/ s = 5 \/ s = 6 \/ s = 7 \/ s = 8)
    as [->|[->|[->|[->|[->|[->|[->| ->]]]]]]] by lia;
    unfold load; simpl; lia.
Qed.


(** The retry loop tests for exactly three: a station holding four, which no
    allocation run produces, would be returned as it is drawn. *)
Example find_random_available_overfull :
  find_random_available (always 0) overfull_state initial_world
  = (Ok 1, advance 1 initial_world).
Proof. reflexivity. Qed.

(** With the generator stuck on the full station 1, nine draws are spent and
    the ascending scan returns station 2. *)
Example find_random_available_scan :
  find_random_available (always 0) first_full_state initial_world
  = (Ok 2, advance 9 initial_world).
Proof. reflexivity. Qed.

(** ** Decoding *)

Lemma key_of_null value : isnull value = true -> key_of value = Ok 0.
Proof. intros H. unfold key_of. now rewrite H. Qed.

Lemma key_of_present value :
  isnull value = false -> key_of value = py_int value.
Proof.
  intros H. unfold key_of. rewrite H.
  destruct (py_int value) as [z|e] eqn:E; [|reflexivity].
  destruct (Z.eqb_spec z 0) as [->|]; reflexivity.
Qed.

Lemma int_of_string_error s : forall e, int_of_string s = Raise e -> e = ValueError.
Proof.
  intros e. unfold int_of_string.
  destruct (parse_int (characters s)); [discriminate|]. now intros [= <-].
Qed.

(** [int] on some strings, given by their bytes: [" +1_0 "] is 10; the
    file separator (character 28) is no white space for [int], so
    ["\x1c7"] is refused; the Arabic-Indic digit three (U+0663) is 3; a
    no-break space (U+00A0) before ["7"] is dropped, in UTF-8 and in
    Latin-1; the fullwidth digits (U+FF11, U+FF12) are 12; ["0x10"],
    ["1__0"] and ["7."] are refused. *)
Example int_of_string_examples :
  let str bytes := string_of_list_ascii (map ascii_of_nat bytes) in
  int_of_string " +1_0 " = Ok 10 /\
  int_of_string (str [28; 55]%nat) = Raise ValueError /\
  int_of_string (str [217; 163]%nat) = Ok 3 /\
  int_of_string (str [194; 160; 55]%nat) = Ok 7 /\
  int_of_string (str [160; 55]%nat) = Ok 7 /\
  int_of_string (str [239; 188; 145; 239; 188; 146]%nat) = Ok 12 /\
  int_of_string "0x10" = Raise ValueError /\
  int_of_string "1__0" = Raise ValueError /\
  int_of_string "7." = Raise ValueError /\
  int_of_string "-007" = Ok (-7).
Proof. cbn zeta. repeat split; vm_compute; reflexivity. Qed.

(** A finite cell yields a key or a [ValueError]. *)
Lemma key_of_finite value :
  finite value ->
  (exists key, key_of value = Ok key) \/ key_of value = Raise ValueError.
Proof.
  intros Hfin. destruct value as [|z|q|neg|b|s].
  - left. now exists 0.
  - left. rewrite key_of_present by reflexivity. now eexists.
  - left. rewrite key_of_present by reflexivity. now eexists.
  - contradiction.
  - left. rewrite key_of_present by reflexivity. now eexists.
  - rewrite key_of_present by reflexivity. simpl.
    destruct (int_of_string s) as [z|e] eqn:E.
    + left. now exists z.
    + right. now rewrite (int_of_string_error s e E).
Qed.

(** What the body of the decode loop does, by the key of the cell. *)
Lemma collect_row_eq i value s :
  collect_row (i, value) s =
  match key_of value with
  | Ok key =>
      if dict_mem (previous_state s) key
      then (Ok tt, mkDecoding (dict_append (previous_state s) key i) (warnings s))
      else (Ok tt, s)
  | Raise ValueError | Raise TypeError =>
      (Ok tt, mkDecoding (previous_state s) (warnings s ++ [(i, value)]))
  | Raise e => (Raise e, s)
  end.
Proof.
  unfold collect_row, try_except_Value_Type, bind, lift, append_if_known, warn.
  destruct (key_of value) as [key|[]]; try reflexivity.
  now destruct (dict_mem (previous_state s) key).
Qed.

Lemma dict_mem_shaped d key : shaped d -> dict_mem d key = true <-> 0 <= key <= 8.
Proof.
  intros Hsh.
  destruct (shaped_entries d Hsh)
    as (l0 & l1 & l2 & l3 & l4 & l5 & l6 & l7 & l8 & ->).
  unfold dict_mem. cbn [dict_get].
  repeat match goal with
         | |- context [if ?a =? ?b then _ else _] =>
             destruct (Z.eqb_spec a b)
         end; split; intros H; try reflexivity; try discriminate; lia.
Qed.

Lemma dict_mem_get d key : dict_mem d key = true <-> dict_get d key <> None.
Proof.
  unfold dict_mem. destruct (dict_get d key); split; intros H;
    try reflexivity; try discriminate; congruence.
Qed.

Lemma in_members_append d k x k' y :
  dict_get d k <> None ->
  In y (members (dict_append d k x) k') <->
  In y (members d k') \/ (k = k' /\ x = y).
Proof.
  intros H. rewrite members_append by assumption.
  destruct (Z.eqb_spec k k') as [<-|Hne].
  - rewrite in_app_iff. simpl. tauto.
  - tauto.
Qed.

(** The decode loop on a column without infinities, from any store whose
    dictionary has the keys 0..8: it returns, each row goes to the group of
    its key when the key is one of 0..8, and a warning is printed exactly
    for the rows whose conversion fails. *)
Lemma collect_spec column :
  Forall finite column ->
  forall a s, shaped (previous_state s) ->
  exists s',
    for_each (combine (seq a (length column)) column) collect_row s = (Ok tt, s') /\
    shaped (previous_state s') /\
    (forall key i,
       In i (members (previous_state s') key) <->
       In i (members (previous_state s) key) \/
       (0 <= key <= 8 /\ (a <= i)%nat /\
        exists value, nth_error column (i - a) = Some value /\
                      key_of value = Ok key)) /\
    (forall i value,
       In (i, value) (warnings s') <->
       In (i, value) (warnings s) \/
       ((a <= i)%nat /\ nth_error column (i - a) = Some value /\
        key_of value = Raise ValueError)).
Proof.
  induction column as [|v column IH]; intros Hfin a s Hsh.
  - exists s. split; [reflexivity|]. split; [assumption|]. split.
    + intros key i. split; [tauto|]. intros [H|(_ & _ & value & H & _)]; [assumption|].
      now destruct (i - a)%nat.
    + intros i value. split; [tauto|]. intros [H|(_ & H & _)]; [assumption|].
      now destruct (i - a)%nat.
  - inversion Hfin as [|? ? Hv Hrest]; subst.
    cbn [length seq combine for_each]. unfold bind.
    rewrite collect_row_eq.
    assert (Hnth0 : forall i, (a <= i)%nat -> (i - a)%nat = O -> i = a) by lia.
    assert (HnthS : forall i, (S a <= i)%nat -> (i - a)%nat = S (i - S a)) by lia.
    destruct (key_of_finite v Hv) as [(key & Ek)|Ek]; rewrite Ek.
    + destruct (dict_mem (previous_state s) key) eqn:Em.
      * pose proof (proj1 (dict_mem_get _ _) Em) as Hpres.
        pose proof (proj1 (dict_mem_shaped _ key Hsh) Em) as Hkey.
        destruct (IH Hrest (S a)
                    (mkDecoding (dict_append (previous_state s) key a) (warnings s))
                    (shaped_append _ _ _ Hsh))
          as (s' & Hrun & Hsh' & Hmem & Hwarn).
        exists s'. split; [exact Hrun|]. split; [exact Hsh'|]. split.
        -- intros k i. rewrite Hmem. simpl previous_state.
           rewrite in_members_append by assumption. split.
           ++ intros [[H|[<- <-]]|(Hk & Hi & value & Hn & Hv')].
              ** now left.
              ** right. split; [assumption|]. split; [lia|].
                 exists v. rewrite Nat.sub_diag. now split.
              ** right. split; [assumption|]. split; [lia|].
                 exists value. rewrite HnthS by lia. now split.
           ++ intros [H|(Hk & Hi & value & Hn & Hv')]; [now left; left|].
              destruct (Nat.eq_dec i a) as [->|Hne].
              ** rewrite Nat.sub_diag in Hn. simpl in Hn. injection Hn as <-.
                 left. right. split; [congruence | reflexivity].
              ** right. split; [assumption|]. split; [lia|].
                 exists value. rewrite HnthS in Hn by lia. now split.
        -- intros i value. rewrite Hwarn. simpl warnings. split.
           ++ intros [H|(Hi & Hn & Hv')]; [now left|].
              right. split; [lia|]. rewrite HnthS by lia. now split.
           ++ intros [H|(Hi & Hn & Hv')]; [now left|].
              destruct (Nat.eq_dec i a) as [->|Hne].
              ** rewrite Nat.sub_diag in Hn. simpl in Hn. injection Hn as <-.
                 congruence.
              ** right. split; [lia|]. rewrite HnthS in Hn by lia. now split.
      * assert (Hkey : ~ 0 <= key <= 8).
        { intros H. apply (dict_mem_shaped _ key Hsh) in H. congruence. }
        destruct (IH Hrest (S a) s Hsh) as (s' & Hrun & Hsh' & Hmem & Hwarn).
        exists s'. split; [exact Hrun|]. split; [exact Hsh'|]. split.
        -- intros k i. rewrite Hmem. split.
           ++ intros [H|(Hk & Hi & value & Hn & Hv')]; [now left|].
              right. split; [assumption|]. split; [lia|].
              exists value. rewrite HnthS by lia. now split.
           ++ intros [H|(Hk & Hi & value & Hn & Hv')]; [now left|].
              destruct (Nat.eq_dec i a) as [->|Hne].
              ** rewrite Nat.sub_diag in Hn. simpl in Hn. injection Hn as <-.
                 exfalso. apply Hkey. congruence.
              ** right. split; [assumption|]. split; [lia|].
                 exists value. rewrite HnthS in Hn by lia. now split.
        -- intros i value. rewrite Hwarn. split.
           ++ intros [H|(Hi & Hn & Hv')]; [now left|].
              right. split; [lia|]. rewrite HnthS by lia. now split.
           ++ intros [H|(Hi & Hn & Hv')]; [now left|].
              destruct (Nat.eq_dec i a) as [->|Hne].
              ** rewrite Nat.sub_diag in Hn. simpl in Hn. injection Hn as <-.
                 congruence.
              ** right. split; [lia|]. rewrite HnthS in Hn by lia. now split.
    + destruct (IH Hrest (S a)
                  (mkDecoding (previous_state s) (warnings s ++ [(a, v)])) Hsh)
        as (s' & Hrun & Hsh' & Hmem & Hwarn).
      exists s'. split; [exact Hrun|]. split; [exact Hsh'|]. split.
      * intros k i. rewrite Hmem. simpl previous_state. split.
        -- intros [H|(Hk & Hi & value & Hn & Hv')]; [now left|].
           right. split; [assumption|]. split; [lia|].
           exists value. rewrite HnthS by lia. now split.
        -- intros [H|(Hk & Hi & value & Hn & Hv')]; [now left|].
           destruct (Nat.eq_dec i a) as [->|Hne].
           ++ rewrite Nat.sub_diag in Hn. simpl in Hn. injection Hn as <-.
              congruence.
           ++ right. split; [assumption|]. split; [lia|].
              exists value. rewrite HnthS in Hn by lia. now split.
      * intros i value. rewrite Hwarn. simpl warnings. rewrite in_app_iff.
        simpl. split.
        -- intros [[H|[H|[]]]|(Hi & Hn & Hv')].
           ++ now left.
           ++ injection H as <- <-. right. split; [lia|].
              rewrite Nat.sub_diag. now split.
           ++ right. split; [lia|]. rewrite HnthS by lia. now split.
        -- intros [H|(Hi & Hn & Hv')]; [now left; left|].
           destruct (Nat.eq_dec i a) as [->|Hne].
           ++ rewrite Nat.sub_diag in Hn. simpl in Hn. injection Hn as <-.
              left. right. now left.
           ++ right. split; [lia|]. rewrite HnthS in Hn by lia. now split.
Qed.

(** Decoding a column without infinities: the groups and the warnings, row
    by row. *)
Lemma decode_spec column :
  Forall finite column ->
  exists d,
    decode column = (Ok tt, d) /\
    shaped (previous_state d) /\
    (forall key i,
       In i (members (previous_state d) key) <->
       0 <= key <= 8 /\
       exists value, nth_error column i = Some value /\ key_of value = Ok key) /\
    (forall i value,
       In (i, value) (warnings d) <->
       nth_error column i = Some value /\ key_of value = Raise ValueError).
Proof.
  intros Hfin.
  destruct (collect_spec column Hfin 0 (mkDecoding empty_state []) eq_refl)
    as (d & Hrun & Hsh & Hmem & Hwarn).
  exists d. split; [exact Hrun|]. split; [exact Hsh|]. split.
  - intros key i. rewrite Hmem. simpl previous_state.
    rewrite members_empty_state, Nat.sub_0_r. simpl. split.
    + intros [[]|(Hk & _ & H)]. now split.
    + intros (Hk & H). right. split; [assumption|]. split; [lia | assumption].
  - intros i value. rewrite Hwarn. simpl warnings. rewrite Nat.sub_0_r. split.
    + intros [[]|(_ & H)]. exact H.
    + intros H. right. split; [lia | exact H].
Qed.

Lemma for_each_app {S A} (body : A -> M S unit) xs ys s :
  for_each (xs ++ ys) body s =
  match for_each xs body s with
  | (Ok _, s') => for_each ys body s'
  | (Raise e, s') => (Raise e, s')
  end.
Proof.
  revert s. induction xs as [|x xs IH]; intros s; simpl; [reflexivity|].
  unfold bind. destruct (body x s) as [[[]|e] s']; [apply IH | reflexivity].
Qed.

Lemma combine_seq_app {A} (l1 l2 : list A) a :
  combine (seq a (length (l1 ++ l2))) (l1 ++ l2) =
  combine (seq a (length l1)) l1
    ++ combine (seq (a + length l1) (length l2)) l2.
Proof.
  revert a. induction l1 as [|x l1 IH]; intros a; simpl.
  - now rewrite Nat.add_0_r.
  - rewrite IH. now rewrite Nat.add_succ_r.
Qed.

Lemma first_infinity column :
  Forall finite column \/
  exists before negative after,
    column = before ++ RInf negative :: after /\ Forall finite before.
Proof.
  induction column as [|v column IH]; [left; constructor|].
  assert (Hv : finite v \/ exists negative, v = RInf negative).
  { destruct v; try (left; exact I). right. eexists. reflexivity. }
  destruct Hv as [Hv|(negative & ->)].
  - destruct IH as [Hall|(before & negative & after & -> & Hall)].
    + left. now constructor.
    + right. exists (v :: before), negative, after.
      split; [reflexivity | now constructor].
  - right. exists [], negative, column. split; [reflexivity | constructor].
Qed.

(** The decode of a column stops at its first infinity, with the prefix
    decoded. *)
Lemma decode_prefix before negative after :
  Forall finite before ->
  exists d,
    decode before = (Ok tt, d) /\
    decode (before ++ RInf negative :: after) = (Raise OverflowError, d).
Proof.
  intros Hfin. destruct (decode_spec before Hfin) as (d & Hrun & _).
  exists d. split; [exact Hrun|].
  unfold decode, _collect_previous_state, enumerate in *.
  rewrite combine_seq_app, for_each_app, Hrun.
  cbn [length seq combine for_each]. unfold bind.
  now rewrite collect_row_eq.
Qed.

(** The decode raises nothing but [OverflowError], and only on an infinity. *)
Lemma decode_raises column e d :
  decode column = (Raise e, d) ->
  e = OverflowError /\ ~ Forall finite column.
Proof.
  intros Hrun.
  destruct (first_infinity column)
    as [Hall|(before & negative & after & -> & Hall)].
  - destruct (decode_spec column Hall) as (d' & Hok & _). congruence.
  - destruct (decode_prefix before negative after Hall) as (d' & _ & Hstop).
    rewrite Hstop in Hrun. injection Hrun as <- _. split; [reflexivity|].
    intros Hfin. apply Forall_app in Hfin. destruct Hfin as [_ Hfin].
    inversion Hfin as [|? ? Hinf _]. exact Hinf.
Qed.

Lemma Forall_firstn {A} (P : A -> Prop) n l :
  Forall P l -> Forall P (firstn n l).
Proof.
  intros H. rewrite <- (firstn_skipn n l) in H.
  apply Forall_app in H. tauto.
Qed.

(** A row of a column that stops at an infinity is decoded when no infinity
    precedes it and its cell yields a key or a [ValueError]: it is a row of
    the prefix. *)
Lemma prefix_row before negative after i value :
  nth_error (before ++ RInf negative :: after) i = Some value ->
  Forall finite (firstn i (before ++ RInf negative :: after)) ->
  key_of value <> Raise OverflowError ->
  nth_error before i = Some value.
Proof.
  intros Hn Hfin Hkey.
  destruct (Nat.lt_trichotomy i (length before)) as [Hlt|[->|Hgt]].
  - now rewrite nth_error_app1 in Hn.
  - rewrite nth_error_app2, Nat.sub_diag in Hn by lia.
    injection Hn as <-. now contradiction Hkey.
  - exfalso. rewrite firstn_app in Hfin. apply Forall_app in Hfin.
    destruct Hfin as [_ Hfin].
    destruct (i - length before)%nat as [|m] eqn:E; [lia|].
    simpl in Hfin. inversion Hfin as [|? ? Hinf _]. exact Hinf.
Qed.

(** Decoding any column: how it ends, and the groups and the warnings, row
    by row.  A row is decoded when no infinity precedes it. *)
Lemma decode_general column :
  (fst (decode column) = Ok tt /\ Forall finite column \/
   fst (decode column) = Raise OverflowError /\ ~ Forall finite column) /\
  shaped (previous_state (snd (decode column))) /\
  (forall key i,
     In i (members (previous_state (snd (decode column))) key) <->
     0 <= key <= 8 /\ Forall finite (firstn i column) /\
     exists value, nth_error column i = Some value /\ key_of value = Ok key) /\
  (forall i value,
     In (i, value) (warnings (snd (decode column))) <->
     Forall finite (firstn i column) /\
     nth_error column i = Some value /\ key_of value = Raise ValueError).
Proof.
  destruct (first_infinity column)
    as [Hall|(before & negative & after & -> & Hall)].
  - destruct (decode_spec column Hall) as (d & Hrun & Hsh & Hmem & Hwarn).
    rewrite Hrun. cbn [fst snd]. split; [now left|]. split; [exact Hsh|].
    split.
    + intros key i. rewrite Hmem. split.
      * intros (Hk & H). split; [exact Hk|].
        split; [now apply Forall_firstn | exact H].
      * intros (Hk & _ & H). now split.
    + intros i value. rewrite Hwarn. split.
      * intros H. split; [now apply Forall_firstn | exact H].
      * intros (_ & H). exact H.
  - destruct (decode_prefix before negative after Hall) as (d & Hrun & Hstop).
    destruct (decode_spec before Hall) as (d' & Hrun' & Hsh & Hmem & Hwarn).
    rewrite Hrun in Hrun'. injection Hrun' as <-.
    rewrite Hstop. cbn [fst snd].
    assert (Hpre : forall i value,
              nth_error before i = Some value ->
              nth_error (before ++ RInf negative :: after) i = Some value /\
              Forall finite (firstn i (before ++ RInf negative :: after))).
    { intros i value Hn.
      assert (Hi : (i < length before)%nat).
      { apply nth_error_Some. congruence. }
      split; [now rewrite nth_error_app1|].
      rewrite firstn_app. replace (i - length before)%nat with 0%nat by lia.
      simpl. rewrite app_nil_r. now apply Forall_firstn. }
    split.
    { right. split; [reflexivity|]. intros Hfin.
      apply Forall_app in Hfin. destruct Hfin as [_ Hfin].
      inversion Hfin as [|? ? Hinf _]. exact Hinf. }
    split; [exact Hsh|]. split.
    + intros key i. rewrite Hmem. split.
      * intros (Hk & value & Hn & Hkey). destruct (Hpre i value Hn) as [H1 H2].
        split; [exact Hk|]. split; [exact H2|]. now exists value.
      * intros (Hk & Hfin & value & Hn & Hkey). split; [exact Hk|].
        exists value. split; [|exact Hkey].
        apply (prefix_row before negative after i value Hn Hfin). congruence.
    + intros i value. rewrite Hwarn. split.
      * intros (Hn & Hkey). destruct (Hpre i value Hn) as [H1 H2].
        now repeat split.
      * intros (Hfin & Hn & Hkey). split; [|exact Hkey].
        apply (prefix_row before negative after i value Hn Hfin). congruence.
Qed.




(** An infinite float is not null and [int] raises [OverflowError] on it,
    which the handler of [_collect_previous_state] does not catch. *)
Example decode_infinity :
  fst (decode [RInt 1; RInf false; RInt 2]) = Raise OverflowError.
Proof. reflexivity. Qed.

(** C8.  The decode test: rows 1 ("abc") and 3 (9) are in no group, row 0 is
    in group 1, rows 2 and 4 in group 0, row 5 in group 3; the only warning
    is the one for row 1. *)
Theorem decode_test_vector :
  exists d,
    decode test_column = (Ok tt, d) /\
    skipped (previous_state d) 1 /\
    skipped (previous_state d) 3 /\
    members (previous_state d) 1 = [0%nat] /\
    members (previous_state d) 0 = [2; 4]%nat /\
    members (previous_state d) 3 = [5%nat] /\
    previous_state d =
      [(0, [2; 4]%nat); (1, [0%nat]); (2, []); (3, [5%nat]); (4, []); (5, []);
       (6, []); (7, []); (8, [])] /\
    warnings d = [(1%nat, RStr "abc")].
Proof.
  eexists. split; [reflexivity|].
  assert (Hskip : forall i,
             ~ In i [2; 4; 0; 5]%nat ->
             skipped [(0, [2; 4]%nat); (1, [0%nat]); (2, []); (3, [5%nat]);
                      (4, []); (5, []); (6, []); (7, []); (8, [])] i).
  { intros i Hi key. unfold members. cbn [dict_get].
    repeat match goal with
           | |- context [if ?a =? ?b then _ else _] => destruct (a =? b)
           end; simpl; simpl in Hi; tauto. }
  split; [apply Hskip; simpl; lia|]. split; [apply Hskip; simpl; lia|].
  repeat split.
Qed.

(** C10, as amended.  A finite float is truncated toward zero, not
    rejected: a row holding the float [q] whose truncation [v] is one of
    1..8, and which no infinite float precedes in the column, is listed in
    group [v] and in no other group, and no warning is printed for it; this
    holds also when the decode stops at an infinite float further down.  A
    row that an infinite float precedes is never reached: the decode raises
    [OverflowError] before it, and the row is in no group.  On a column
    without infinite floats the decode returns. *)
Theorem decode_truncates (column : list raw) (i : nat) (q : Q) :
  nth_error column i = Some (RFloat q) ->
  let v := Z.quot (Qnum q) (Zpos (Qden q)) in
  1 <= v <= 8 ->
  let d := snd (decode column) in
  (Forall finite column -> decode column = (Ok tt, d)) /\
  (Forall finite (firstn i column) ->
   In i (members (previous_state d) v) /\
   (forall key, In i (members (previous_state d) key) -> key = v) /\
   silent d i) /\
  (~ Forall finite (firstn i column) ->
   fst (decode column) = Raise OverflowError /\
   skipped (previous_state d) i /\ silent d i).
Proof.
  intros Hn v Hv d.
  assert (Hkey : key_of (RFloat q) = Ok v) by (now rewrite key_of_present).
  destruct (decode_general column) as (Hend & _ & Hmem & Hwarn).
  fold d in Hmem, Hwarn.
  assert (Hsilent : silent d i).
  { intros value Hin. apply Hwarn in Hin. destruct Hin as (_ & Hn' & Hk).
    rewrite Hn in Hn'. injection Hn' as <-. congruence. }
  split; [|split].
  - intros Hfin. destruct Hend as [[H _]|[_ H]]; [|contradiction].
    unfold d. now destruct (decode column) as [r d']; simpl in *; subst.
  - intros Hfin. split; [|split; [|exact Hsilent]].
    + apply Hmem. split; [lia|]. split; [exact Hfin|]. now exists (RFloat q).
    + intros key Hin. apply Hmem in Hin.
      destruct Hin as (_ & _ & value & Hn' & Hk).
      rewrite Hn in Hn'. injection Hn' as <-. congruence.
  - intros Hinf. split; [|split; [|exact Hsilent]].
    + destruct Hend as [[_ H]|[H _]]; [|exact H].
      contradiction Hinf. now apply Forall_firstn.
    + intros key Hin. apply Hmem in Hin. destruct Hin as (_ & Hfin & _).
      contradiction.
Qed.

(** The float 3.7 (the double nearest to it is 8331659310635418 / 2^51)
    goes to station 3, though the decode then stops at the infinity. *)
Lemma decode_truncates_witness :
  let column := [RInt 1; RFloat (8331659310635418 # 2251799813685248);
                 RInf false] in
  fst (decode column) = Raise OverflowError /\
  In 1%nat (members (previous_state (snd (decode column))) 3) /\
  (forall key, In 1%nat (members (previous_state (snd (decode column))) key) ->
               key = 3) /\
  silent (snd (decode column)) 1.
Proof.
  cbn zeta. split; [reflexivity|].
  apply (decode_truncates
           [RInt 1; RFloat (8331659310635418 # 2251799813685248); RInf false]
           1 (8331659310635418 # 2251799813685248)).
  - reflexivity.
  - vm_compute. split; discriminate.
  - repeat constructor.
Defined.

(** C10, as stated, fails: in the column [[inf; 3.7]] the second row holds
    a float whose truncation is 3, but the decode raises at the first row
    and the second row is in no group. *)
Lemma decode_truncates_counterexample :
  let q := 8331659310635418 # 2251799813685248 in
  let column := [RInf false; RFloat q] in
  nth_error column 1 = Some (RFloat q) /\
  Z.quot (Qnum q) (Zpos (Qden q)) = 3 /\
  fst (decode column) = Raise OverflowError /\
  skipped (previous_state (snd (decode column))) 1.
Proof.
  cbn zeta. repeat split.
  intros key. change (~ In 1%nat (members empty_state key)).
  rewrite members_empty_state. intros [].
Qed.

(** ** Encoding *)

Lemma list_set_length l i key : length (list_set l i key) = length l.
Proof.
  revert i. induction l as [|x l IH]; intros [|i]; simpl; auto.
Qed.

Lemma list_set_nth l i key j :
  (i < length l)%nat ->
  nth j (list_set l i key) 0 = if (i =? j)%nat then key else nth j l 0.
Proof.
  revert i j. induction l as [|x l IH]; intros [|i] [|j] H; simpl in *;
    try lia; try reflexivity.
  apply IH. lia.
Qed.

(** The inner loop writes [key] at the indices of one group. *)
Lemma set_items_spec key indices :
  forall col,
    (forall i, In i indices -> (i < length col)%nat) ->
    exists col',
      for_each indices (set_item key) col = (Ok tt, col') /\
      length col' = length col /\
      (forall j, nth j col' 0 = if existsb (Nat.eqb j) indices
                                then key else nth j col 0).
Proof.
  induction indices as [|i indices IH]; intros col Hr.
  - exists col. now repeat split.
  - cbn [for_each]. unfold bind, set_item at 1.
    pose proof (Hr i (or_introl eq_refl)) as Hi.
    destruct (Nat.ltb_spec i (length col)) as [_|]; [|lia].
    destruct (IH (list_set col i key)) as (col' & Hrun & Hlen & Hnth).
    { intros j Hj. rewrite list_set_length. apply Hr. now right. }
    exists col'. split; [exact Hrun|].
    split; [now rewrite Hlen, list_set_length|].
    intros j. rewrite Hnth. simpl existsb.
    rewrite list_set_nth by assumption.
    rewrite (Nat.eqb_sym j i).
    destruct (existsb (Nat.eqb j) indices); destruct (i =? j)%nat; reflexivity.
Qed.

Lemma existsb_eqb_in j l : existsb (Nat.eqb j) l = true <-> In j l.
Proof.
  rewrite existsb_exists. split.
  - intros (x & Hx & E). apply Nat.eqb_eq in E. now subst.
  - intros H. exists j. split; [assumption | apply Nat.eqb_refl].
Qed.

Lemma listed_dec (d : dict) (i : nat) :
  (exists key l, In (key, l) d /\ In i l) \/ unlisted d i.
Proof.
  induction d as [|[k l] d IH].
  - right. intros key l [].
  - destruct (in_dec Nat.eq_dec i l) as [Hin|Hnin].
    + left. exists k, l. split; [now left | assumption].
    + destruct IH as [(key & l' & Hd & Hi)|Hun].
      * left. exists key, l'. split; [now right | assumption].
      * right. intros key l' [E|Hd].
        -- injection E as <- <-. assumption.
        -- exact (Hun key l' Hd).
Qed.

(** The outer loop, from any column long enough. *)
Lemma encode_loop state :
  forall col,
    indices_below (length col) state ->
    exists col',
      for_each state (fun entry => for_each (snd entry) (set_item (fst entry))) col
        = (Ok tt, col') /\
      length col' = length col /\
      (forall i, unlisted state i -> nth i col' 0 = nth i col 0) /\
      (forall key l i,
         In (key, l) state -> In i l ->
         (forall key' l', In (key', l') state -> In i l' -> key' = key) ->
         nth i col' 0 = key).
Proof.
  induction state as [|[k l] state IH]; intros col Hr.
  - exists col. split; [reflexivity|]. split; [reflexivity|].
    split; [reflexivity|]. intros key l i [].
  - cbn [for_each]. unfold bind. cbn [fst snd].
    destruct (set_items_spec k l col) as (col1 & Hrun1 & Hlen1 & Hnth1).
    { intros i Hi. apply (Hr k l i); [now left | assumption]. }
    rewrite Hrun1.
    destruct (IH col1) as (col' & Hrun & Hlen & Hun & Hin).
    { intros key l' i Hd Hi. rewrite Hlen1. apply (Hr key l' i); [now right | assumption]. }
    exists col'. split; [exact Hrun|]. split; [congruence|]. split.
    + intros i Hi. rewrite Hun.
      * rewrite Hnth1.
        destruct (existsb (Nat.eqb i) l) eqn:E; [|reflexivity].
        apply existsb_eqb_in in E. exfalso. apply (Hi k l); [now left | assumption].
      * intros key l' Hd. apply (Hi key l'). now right.
    + intros key l0 i Hd Hi Huniq.
      destruct (listed_dec state i) as [(key' & l' & Hd' & Hi')|Hunl].
      * rewrite (Hin key' l' i Hd' Hi').
        -- apply Huniq with l'; [now right | assumption].
        -- intros key'' l'' Hd'' Hi''.
           rewrite (Huniq key'' l'') by (try right; assumption).
           symmetry. apply Huniq with l'; [now right | assumption].
      * rewrite Hun by assumption. rewrite Hnth1.
        destruct Hd as [E|Hd]; [|exfalso; now apply (Hunl key l0)].
        injection E as <- <-.
        apply existsb_eqb_in in Hi. now rewrite Hi.
Qed.

(** Encoding a grouping of the data model: the length, the default and the
    labels. *)
Lemma encode_spec rows state_dict :
  indices_below rows state_dict -> unique_station state_dict ->
  exists column_values,
    convert_state_to_column rows state_dict = Ok column_values /\
    length column_values = rows /\
    (forall i, (i < rows)%nat -> unlisted state_dict i ->
               nth_error column_values i = Some 0) /\
    (forall key l i, In (key, l) state_dict -> In i l ->
                     nth_error column_values i = Some key).
Proof.
  intros Hr Hu. unfold convert_state_to_column.
  destruct (encode_loop state_dict (repeat 0 rows)) as (col & Hrun & Hlen & Hun & Hin).
  { now rewrite repeat_length. }
  rewrite repeat_length in Hlen.
  rewrite Hrun. exists col. split; [reflexivity|]. split; [exact Hlen|]. split.
  - intros i Hi Hunl.
    rewrite (nth_error_nth' col 0) by lia. f_equal.
    rewrite Hun by assumption. apply nth_repeat.
  - intros key l i Hd Hi.
    rewrite (nth_error_nth' col 0) by (rewrite Hlen; now apply (Hr key l)).
    f_equal. apply (Hin key l i Hd Hi).
    intros key' l' Hd' Hi'. now apply (Hu key' l' key l i).
Qed.

(** C9.  Encoding a grouping whose row indices are below the row count and
    are each listed under one station only: the result has exactly [rows]
    values, 0 at every index no group lists and the station label at every
    index a group lists; and the grouping {1: [0, 2], 2: [1]} with four rows
    gives [1, 2, 1, 0]. *)
Theorem encode_correct (rows : nat) (state_dict : dict) :
  indices_below rows state_dict -> unique_station state_dict ->
  (exists column_values,
     convert_state_to_column rows state_dict = Ok column_values /\
     length column_values = rows /\
     (forall i, (i < rows)%nat -> unlisted state_dict i ->
                nth_error column_values i = Some 0) /\
     (forall key l i, In (key, l) state_dict -> In i l ->
                      nth_error column_values i = Some key)) /\
  convert_state_to_column 4 [(1, [0; 2]%nat); (2, [1%nat])] = Ok [1; 2; 1; 0].
Proof.
  intros Hr Hu. split; [now apply encode_spec | reflexivity].
Qed.

Lemma encode_correct_witness :
  exists column_values,
    convert_state_to_column 6
      [(0, []); (1, [3%nat]); (2, [0; 5]%nat); (3, []); (4, [2%nat])]
      = Ok column_values /\
    length column_values = 6%nat /\
    nth_error column_values 1 = Some 0 /\
    nth_error column_values 5 = Some 2.
Proof.
  set (d := [(0, []); (1, [3%nat]); (2, [0; 5]%nat); (3, []); (4, [2%nat])]).
  assert (Hr : indices_below 6 d).
  { intros key l i Hd Hi. unfold d in Hd. simpl in Hd.
    repeat (destruct Hd as [Hd|Hd];
            [injection Hd as <- <-; simpl in Hi; lia|]).
    contradiction. }
  assert (Hu : unique_station d).
  { intros key l key' l' i Hd Hd' Hi Hi'. unfold d in Hd, Hd'. simpl in Hd, Hd'.
    repeat (destruct Hd as [Hd|Hd]; [injection Hd as <- <-|]);
      try contradiction;
      repeat (destruct Hd' as [Hd'|Hd']; [injection Hd' as <- <-|]);
      try contradiction; simpl in Hi, Hi'; try reflexivity; lia. }
  destruct (proj1 (encode_correct 6 d Hr Hu)) as (col & Hrun & Hlen & Hzero & Hkey).
  exists col. split; [exact Hrun|]. split; [exact Hlen|]. split.
  - apply Hzero; [lia|]. intros key l Hd Hi. unfold d in Hd. simpl in Hd.
    repeat (destruct Hd as [Hd|Hd];
            [injection Hd as <- <-; simpl in Hi; lia|]).
    contradiction.
  - apply (Hkey 2 [0; 5]%nat); simpl; tauto.
Defined.

(** An index at or beyond the row count makes the assignment raise. *)
Example encode_out_of_range :
  convert_state_to_column 2 [(1, [0; 2]%nat); (2, [1%nat])] = Raise IndexError.
Proof. reflexivity. Qed.

(** A row index listed twice keeps the label written last. *)
Example encode_last_writer :
  convert_state_to_column 2 [(1, [0; 1]%nat); (2, [1%nat])] = Ok [1; 2].
Proof. reflexivity. Qed.

(** ** From the last column to the new column *)

(** Decoding lists each row at most once, and only rows of the column. *)
Lemma collect_items column :
  forall a s,
    NoDup (items (previous_state s)) ->
    (forall i, In i (items (previous_state s)) -> (i < a)%nat) ->
    let s' := snd (for_each (combine (seq a (length column)) column) collect_row s) in
    NoDup (items (previous_state s')) /\
    (forall i, In i (items (previous_state s')) -> (i < a + length column)%nat).
Proof.
  induction column as [|v column IH]; intros a s Hnd Hb; cbn zeta.
  - simpl. split; [assumption|]. intros i Hi. specialize (Hb i Hi). lia.
  - cbn [length seq combine for_each]. unfold bind. rewrite collect_row_eq.
    assert (Hstep : forall s1,
               NoDup (items (previous_state s1)) ->
               (forall i, In i (items (previous_state s1)) -> (i < S a)%nat) ->
               NoDup (items (previous_state
                  (snd (for_each (combine (seq (S a) (length column)) column)
                          collect_row s1)))) /\
               (forall i, In i (items (previous_state
                  (snd (for_each (combine (seq (S a) (length column)) column)
                          collect_row s1)))) -> (i < a + S (length column))%nat)).
    { intros s1 H1 H2. destruct (IH (S a) s1 H1 H2) as [H3 H4].
      split; [exact H3|]. intros i Hi. specialize (H4 i Hi). lia. }
    assert (Hkeep : forall i, In i (items (previous_state s)) -> (i < S a)%nat).
    { intros i Hi. specialize (Hb i Hi). lia. }
    assert (Hstop : NoDup (items (previous_state s)) /\
                    (forall i, In i (items (previous_state s)) ->
                               (i < a + S (length column))%nat)).
    { split; [assumption|]. intros i Hi. specialize (Hb i Hi). lia. }
    destruct (key_of v) as [key|[]]; try exact Hstop;
      try (apply Hstep; assumption).
    destruct (dict_mem (previous_state s) key) eqn:Em;
      [|apply Hstep; assumption].
    apply dict_mem_get in Em. apply Hstep; simpl previous_state.
    + apply (Permutation_NoDup (l := a :: items (previous_state s))).
      * symmetry. now apply items_append.
      * constructor; [|assumption]. intros Hin. specialize (Hb a Hin). lia.
    + intros i Hi.
      apply (Permutation_in _ (items_append _ key a Em)) in Hi.
      destruct Hi as [<-|Hi]; [lia | now apply Hkeep].
Qed.

Lemma unique_of_NoDup d : NoDup (items d) -> unique_station d.
Proof.
  unfold items. induction d as [|[k l] d IH]; intros Hnd.
  - intros key l key' l' i [].
  - simpl in Hnd. pose proof (NoDup_app_remove_l _ _ Hnd) as Hd.
    assert (Hdisj : forall i l', In i l -> In l' (map snd d) -> ~ In i l').
    { intros i l' Hi Hl' Hi'. revert Hnd Hi. clear - Hl' Hi'.
      intros Hnd Hi. induction l as [|x l IHl]; [contradiction|].
      simpl in Hnd. inversion Hnd as [|? ? Hx Hrest]; subst.
      destruct Hi as [->|Hi]; [|now apply IHl].
      apply Hx. apply in_or_app. right. apply in_concat. now exists l'. }
    intros key l1 key' l2 i [E1|H1] [E2|H2] Hi1 Hi2.
    + congruence.
    + injection E1 as <- <-. exfalso.
      apply (Hdisj i l2 Hi1); [|assumption].
      apply in_map_iff. now exists (key', l2).
    + injection E2 as <- <-. exfalso.
      apply (Hdisj i l1 Hi2); [|assumption].
      apply in_map_iff. now exists (key, l1).
    + now apply (IH Hd key l1 key' l2 i).
Qed.

Lemma in_items d i : In i (items d) <-> exists key l, In (key, l) d /\ In i l.
Proof.
  unfold items. rewrite in_concat. split.
  - intros (l & Hl & Hi). apply in_map_iff in Hl.
    destruct Hl as ([key l'] & <- & Hd). now exists key, l'.
  - intros (key & l & Hd & Hi). exists l. split; [|assumption].
    apply in_map_iff. now exists (key, l).
Qed.

(** One run of [add_template_column] on a last column of at most 24 rows
    without infinities: it returns a column of the same length, and every
    row that the decode kept holds there the label of the one station that
    lists it, the rows that the decode skipped hold 0. *)
Lemma pipeline_column rand column :
  Forall finite column -> (length column <= 24)%nat ->
  exists new_state column_values,
    template_function rand column = Ok new_state /\
    add_template_column rand column = Ok column_values /\
    length column_values = length column /\
    unique_station new_state /\
    indices_below (length column) new_state /\
    (forall key l i, In (key, l) new_state -> In i l ->
                     nth_error column_values i = Some key) /\
    (forall i, (i < length column)%nat -> unlisted new_state i ->
               nth_error column_values i = Some 0).
Proof.
  intros Hfin Hlen.
  destruct (decode_spec column Hfin) as (d & Hdec & _ & _ & _).
  pose proof (collect_items column 0 (mkDecoding empty_state []))
    as Hitems.
  cbn zeta in Hitems. fold (enumerate column) in Hitems.
  fold (_collect_previous_state column) in Hitems.
  fold (decode column) in Hitems. rewrite Hdec in Hitems. simpl snd in Hitems.
  destruct Hitems as [Hnd Hbound]; [constructor | intros i [] |].
  assert (Hcount : (length (items (previous_state d)) <= 24)%nat).
  { apply Nat.le_trans with (length column); [|assumption].
    rewrite <- (length_seq (length column) 0).
    apply NoDup_incl_length; [assumption|].
    intros i Hi. apply in_seq. specialize (Hbound i Hi). lia. }
  destruct (conserve_groups rand (items (previous_state d)) Hcount
              (previous_state d) initial_world empty_state_sane eq_refl)
    as (w & Hrun & Hperm).
  { simpl. now rewrite app_nil_r. }
  exists (new_state w).
  assert (Hu : unique_station (new_state w)).
  { apply unique_of_NoDup. apply (Permutation_NoDup (l := items (previous_state d)));
      [now symmetry | assumption]. }
  assert (Hr : indices_below (length column) (new_state w)).
  { intros key l i Hd Hi.
    assert (Hin : In i (items (new_state w))) by (apply in_items; now exists key, l).
    apply (Permutation_in _ Hperm) in Hin. now apply Hbound. }
  destruct (encode_spec (length column) (new_state w) Hr Hu)
    as (col & Henc & Hcl & Hzero & Hkey).
  exists col.
  assert (Htf : template_function rand column = Ok (new_state w)).
  { unfold template_function. rewrite Hdec. now rewrite Hrun. }
  split; [exact Htf|]. split.
  { unfold add_template_column. now rewrite Htf. }
  repeat split; assumption.
Qed.

(** * Further properties of the allocator *)

(** X1.  [check_not_in_list] answers [True] exactly when the two lists have
    no element in common. *)
Theorem check_not_in_list_disjoint (values lst : list nat) :
  check_not_in_list values lst = true <->
  (forall v, In v values -> ~ In v lst).
Proof.
  induction values as [|v values IH]; simpl.
  - split; [intros _ v [] | reflexivity].
  - destruct (existsb (Nat.eqb v) lst) eqn:E.
    + split; [discriminate|]. intros H. exfalso.
      apply existsb_eqb_in in E. exact (H v (or_introl eq_refl) E).
    + rewrite IH. split.
      * intros H x [<-|Hx]; [|now apply H].
        intros Hin. apply existsb_eqb_in in Hin. congruence.
      * intros H x Hx. apply H. now right.
Qed.

(** X2.  When no station holds a member of the student's previous group,
    the constrained search is the plain one: same station or same error,
    same draws. *)
Theorem assign_station_without_collision
    (rand : nat -> Z) (st : nat) (group : list nat) (lst : dict) (w : world) :
  has_stations lst ->
  (forall s, 1 <= s <= 8 -> check_not_in_list group (members lst s) = true) ->
  _assign_station_for_student rand st group lst w
  = find_random_available rand lst w.
Proof.
  intros Hst Hfree. unfold _assign_station_for_student, bind.
  destruct (all_full_dec lst Hst) as [Hf|Hnf].
  - now rewrite find_random_available_full.
  - assert (Hstop : forall s w', 1 <= s <= 8 ->
               avoid_search rand 15 group lst s w' = (Ok s, w')).
    { intros s w' Hs. simpl. unfold bind, lift, subscript.
      specialize (Hfree s Hs). unfold members in Hfree.
      pose proof (Hst s Hs) as Hp.
      destruct (dict_get lst s) as [l|]; [|contradiction].
      now rewrite Hfree. }
    destruct (find_random_available_free rand lst w Hst Hnf)
      as (k & _ & _ & [(_ & ->)|(_ & _ & s & (Hs & _) & ->)]).
    + apply Hstop, draw_range.
    + now apply Hstop.
Qed.

Lemma assign_station_without_collision_witness :
  _assign_station_for_student (always 0) 7 [7; 8]%nat first_full_state
    initial_world
  = find_random_available (always 0) first_full_state initial_world.
Proof.
  apply assign_station_without_collision.
  - exact first_full_state_has_stations.
  - intros s Hs.
    assert (s = 1 \/ s = 2 \/ s = 3 \/ s = 4 \/ s = 5 \/ s = 6 \/ s = 7 \/ s = 8)
      as [->|[->|[->|[->|[->|[->|[->| ->]]]]]]] by lia; reflexivity.
Defined.

(** The plain search with the number of draws it takes. *)
Lemma find_random_available_bounded rand lst w :
  has_stations lst -> within_capacity lst -> ~ all_full lst ->
  exists s k, find_random_available rand lst w = (Ok s, advance k w) /\
              1 <= s <= 8 /\ (load lst s < 3)%nat /\ (1 <= k <= 9)%nat.
Proof.
  intros Hst Hcap Hnf.
  destruct (find_random_available_free rand lst w Hst Hnf)
    as (k & Hk & _ & [(Hne & Heq)|(_ & _ & s & (Hs & Hl & _) & Heq)]).
  - exists (draw rand (rng_pos w + k)), (S k). split; [assumption|].
    pose proof (draw_range rand (rng_pos w + k)) as Hr.
    pose proof (Hcap _ Hr). repeat split; try lia.
  - exists s, 9%nat. repeat split; try assumption; lia.
Qed.

Lemma avoid_search_bounded rand group lst :
  has_stations lst -> within_capacity lst -> ~ all_full lst ->
  forall budget a w, 1 <= a <= 8 -> (load lst a < 3)%nat ->
  exists s k, avoid_search rand budget group lst a w = (Ok s, advance k w) /\
              1 <= s <= 8 /\ (load lst s < 3)%nat /\ (k <= 9 * budget)%nat.
Proof.
  intros Hst Hcap Hnf. induction budget as [|b IH]; intros a w Ha Hla; simpl;
    unfold bind at 1; unfold lift;
    destruct (subscript_load lst a) as (l & -> & Hl); try (now apply Hst);
    destruct (negb (check_not_in_list group l)).
  - exists a, O. rewrite advance_0. repeat split; try assumption; lia.
  - exists a, O. rewrite advance_0. repeat split; try assumption; lia.
  - unfold bind.
    destruct (find_random_available_bounded rand lst w Hst Hcap Hnf)
      as (s & k & -> & Hs & Hls & Hk).
    destruct (IH s (advance k w) Hs Hls) as (s' & k' & -> & Hs' & Hls' & Hk').
    exists s', (k' + k)%nat. rewrite advance_advance.
    repeat split; try assumption; lia.
  - exists a, O. rewrite advance_0. repeat split; try assumption; lia.
Qed.

(** X3.  Capacity is hard, avoidance is soft: on a dictionary within the
    capacity, [_assign_station_for_student] raises [ValueError] exactly when
    every station is full, without consuming a draw; otherwise it returns a
    station of 1..8 with room, whatever the collisions, after at least one
    and at most 144 draws (16 searches of at most 9 draws), and changes
    nothing but the position of the generator. *)
Theorem assign_station_capacity
    (rand : nat -> Z) (st : nat) (group : list nat) (lst : dict) (w : world) :
  has_stations lst -> within_capacity lst ->
  (all_full lst ->
   _assign_station_for_student rand st group lst w = (Raise ValueError, w)) /\
  (~ all_full lst ->
   exists s k,
     _assign_station_for_student rand st group lst w = (Ok s, advance k w) /\
     1 <= s <= 8 /\ (load lst s < 3)%nat /\ (1 <= k <= 144)%nat).
Proof.
  intros Hst Hcap. unfold _assign_station_for_student, bind. split.
  - intros Hf. now rewrite find_random_available_full.
  - intros Hnf.
    destruct (find_random_available_bounded rand lst w Hst Hcap Hnf)
      as (s & k & -> & Hs & Hls & Hk).
    destruct (avoid_search_bounded rand group lst Hst Hcap Hnf 15 s
                (advance k w) Hs Hls) as (s' & k' & -> & Hs' & Hls' & Hk').
    exists s', (k' + k)%nat. rewrite advance_advance.
    repeat split; try assumption; lia.
Qed.

Lemma assign_station_capacity_witness :
  exists s k,
    _assign_station_for_student (always 0) 1 [0; 1; 2]%nat first_full_state
      initial_world = (Ok s, advance k initial_world) /\
    1 <= s <= 8 /\ (load first_full_state s < 3)%nat /\ (1 <= k <= 144)%nat.
Proof.
  apply (proj2 (assign_station_capacity (always 0) 1 [0; 1; 2]%nat
                  first_full_state initial_world
                  first_full_state_has_stations
                  first_full_state_within_capacity)).
  intros H. specialize (H 2 ltac:(lia)). unfold load in H. simpl in H. lia.
Defined.

(** X4.  The loop over a nonzero group always runs to its end: no exception
    leaves it, and it prints one line per student of the group, in the
    order of the group, each saying that the student was placed or that it
    was given up. *)
Theorem constrained_group_log
    (rand : nat -> Z) (group students : list nat) (w : world) :
  sane w ->
  exists w',
    for_each students (place_constrained rand group) w = (Ok tt, w') /\
    map action_of (stdout w') = map action_of (stdout w) ++ map Attempt students /\
    sane w'.
Proof.
  intros Hsane.
  pose proof (constrained_group_contained rand group students w Hsane) as Hok.
  pose proof (order_students (place_constrained rand group)
                (fun st w H => place_constrained_outcome rand group st w H)
                (map action_of (stdout w) ++ map Attempt students ++ [])
                [] students w Hsane eq_refl) as Hlog.
  destruct (for_each students (place_constrained rand group) w)
    as [[[]|e] w']; [|discriminate Hok].
  destruct Hlog as [Hs Hl]. exists w'. split; [reflexivity|].
  rewrite !app_nil_r in Hl. now split.
Qed.

Lemma constrained_group_log_witness :
  exists w',
    for_each [0; 1; 2]%nat (place_constrained counting [0; 1; 2]%nat)
      initial_world = (Ok tt, w') /\
    map action_of (stdout w')
    = map action_of (stdout initial_world) ++ map Attempt [0; 1; 2]%nat /\
    sane w'.
Proof. apply constrained_group_log. exact empty_state_sane. Defined.

Lemma failures_app log log' : failures (log ++ log') = failures log ++ failures log'.
Proof. unfold failures. apply flat_map_app. Qed.

Lemma perm_move (a : nat) l1 l2 l3 :
  Permutation (l1 ++ l2 ++ a :: l3) (a :: l1 ++ l2 ++ l3).
Proof. rewrite !app_assoc. symmetry. apply Permutation_middle. Qed.

Lemma perm_snoc (a : nat) l1 l2 l3 l4 :
  Permutation (l1 ++ l2 ++ l3 ++ l4 ++ [a]) (a :: l1 ++ l2 ++ l3 ++ l4).
Proof. rewrite !app_assoc. symmetry. apply Permutation_cons_append. Qed.

(** Every student of a loop ends up placed, reported as failed, or not
    attempted because an exception cut the loop short. *)
Lemma accounting_students (body : nat -> M world unit) :
  (forall st w, sane w -> outcome st w (body st w)) ->
  forall tgt extra students w,
    sane w ->
    Permutation (students ++ extra ++ items (new_state w) ++ failures (stdout w))
      tgt ->
    match for_each students body w with
    | (Ok _, w') =>
        sane w' /\
        Permutation (extra ++ items (new_state w') ++ failures (stdout w')) tgt
    | (Raise _, w') =>
        exists rest,
          Permutation (rest ++ items (new_state w') ++ failures (stdout w')) tgt
    end.
Proof.
  intros Hbody tgt extra students w Hsane Hperm.
  apply (for_each_rule body
           (fun rest w => sane w /\
              Permutation
                (rest ++ extra ++ items (new_state w) ++ failures (stdout w)) tgt)
           (fun out =>
              match out with
              | (Ok _, w') =>
                  sane w' /\
                  Permutation
                    (extra ++ items (new_state w') ++ failures (stdout w')) tgt
              | (Raise _, w') =>
                  exists rest,
                    Permutation
                      (rest ++ items (new_state w') ++ failures (stdout w')) tgt
              end)).
  - intros w0 H. exact H.
  - intros st rest w0 [H1 H2].
    destruct (Hbody st w0 H1) as [s k Hs Hl|Hf|Hf].
    + split; [now apply sane_placed|]. simpl new_state. simpl stdout.
      rewrite failures_app. simpl failures at 2. rewrite app_nil_r.
      rewrite <- H2.
      rewrite (items_append (new_state w0) s st) by (now apply H1).
      simpl. apply perm_move.
    + split; [exact H1|]. simpl new_state. simpl stdout.
      rewrite failures_app. simpl failures at 2.
      rewrite <- H2. simpl. apply perm_snoc.
    + exists (st :: rest ++ extra). rewrite <- H2. simpl.
      now rewrite <- app_assoc.
  - split; assumption.
Qed.

Lemma accounting_groups rand tgt previous_state w :
  sane w ->
  Permutation
    (items previous_state ++ items (new_state w) ++ failures (stdout w)) tgt ->
  let out := _distribute_students rand previous_state w in
  exists unattempted,
    Permutation
      (unattempted ++ items (new_state (snd out)) ++ failures (stdout (snd out)))
      tgt /\
    (fst out = Ok tt -> unattempted = []).
Proof.
  intros Hsane Hperm. cbn zeta.
  apply (for_each_rule (distribute_group rand)
           (fun rest w => sane w /\
              Permutation
                (items rest ++ items (new_state w) ++ failures (stdout w)) tgt)
           (fun out => exists unattempted,
              Permutation
                (unattempted ++ items (new_state (snd out))
                   ++ failures (stdout (snd out))) tgt /\
              (fst out = Ok tt -> unattempted = []))).
  - intros w0 [H1 H2]. exists []. split; [exact H2 | reflexivity].
  - intros [key students] rest w0 [H1 H2].
    unfold items at 1 in H2. simpl in H2. fold (items rest) in H2.
    rewrite <- app_assoc in H2.
    destruct students as [|st students]; [split; [exact H1 | exact H2]|].
    unfold distribute_group. unfold bind at 1. unfold print at 1.
    set (w1 := mkWorld (rng_pos w0) (new_state w0)
                 (stdout w0 ++ [PrintGroup key (st :: students)]) (history w0)).
    assert (Hw1 : sane w1) by exact H1.
    assert (Hq : Permutation
                   ((st :: students) ++ items rest ++ items (new_state w1)
                      ++ failures (stdout w1)) tgt).
    { unfold w1. simpl new_state. simpl stdout. rewrite failures_app.
      simpl failures at 2. rewrite app_nil_r. exact H2. }
    assert (Hb : forall body : nat -> M world unit,
               (forall st w, sane w -> outcome st w (body st w)) ->
               match for_each (st :: students) body w1 with
               | (Ok _, s') => sane s' /\
                   Permutation
                     (items rest ++ items (new_state s') ++ failures (stdout s'))
                     tgt
               | (Raise e, s') => exists unattempted,
                   Permutation
                     (unattempted ++ items (new_state (snd (@Raise unit e, s')))
                        ++ failures (stdout (snd (@Raise unit e, s')))) tgt /\
                   (fst (@Raise unit e, s') = Ok tt -> unattempted = [])
               end).
    { intros body Hbody.
      pose proof (accounting_students body Hbody tgt (items rest)
                    (st :: students) w1 Hw1 Hq) as H.
      destruct (for_each (st :: students) body w1) as [[[]|e] w2]; [exact H|].
      destruct H as (un & H). exists un. split; [exact H | discriminate]. }
    destruct (negb (key =? 0)).
    + apply Hb. intros. now apply place_constrained_outcome.
    + apply Hb. intros. now apply place_free_outcome.
  - split; assumption.
Qed.

Lemma reported_app log log' :
  reported (log ++ log') = reported log ++ reported log'.
Proof. unfold reported. apply flat_map_app. Qed.

(** The ledger of a loop over students: those dealt with are the ones the
    log reports on, in order, and they are in the new state or reported as
    not placed; a loop that raises stops at a student for whom every station
    is full. *)
Lemma ledger_students (body : nat -> M world unit) :
  (forall st w, sane w -> outcome st w (body st w)) ->
  forall students done w,
    sane w -> reported (stdout w) = done ->
    Permutation done (items (new_state w) ++ failures (stdout w)) ->
    match for_each students body w with
    | (Ok _, w') =>
        sane w' /\ reported (stdout w') = done ++ students /\
        Permutation (done ++ students)
          (items (new_state w') ++ failures (stdout w'))
    | (Raise e, w') =>
        e = ValueError /\
        exists before st after,
          students = before ++ st :: after /\
          reported (stdout w') = done ++ before /\
          Permutation (done ++ before)
            (items (new_state w') ++ failures (stdout w')) /\
          all_full (new_state w')
    end.
Proof.
  intros Hbody. induction students as [|a students IH];
    intros done w Hsane Hrep Hperm.
  - cbn [for_each]. unfold ret. rewrite app_nil_r.
    split; [exact Hsane|]. split; [exact Hrep | exact Hperm].
  - cbn [for_each]. unfold bind.
    destruct (Hbody a w Hsane) as [s k Hs Hl|Hf|Hf].
    + specialize (IH (done ++ [a]) (placed a s k w)).
      destruct (for_each students body (placed a s k w)) as [[[]|e] w'].
      * rewrite <- app_assoc in IH. apply IH.
        -- now apply sane_placed.
        -- simpl stdout. rewrite reported_app, Hrep. reflexivity.
        -- simpl new_state. simpl stdout. rewrite failures_app.
           simpl failures at 2. rewrite app_nil_r.
           rewrite (items_append (new_state w) s a) by (now apply Hsane).
           rewrite <- Permutation_cons_append. simpl. now constructor.
      * destruct IH as (He & before & st & after & Hs' & Hr' & Hp' & Hfull).
        -- now apply sane_placed.
        -- simpl stdout. rewrite reported_app, Hrep. reflexivity.
        -- simpl new_state. simpl stdout. rewrite failures_app.
           simpl failures at 2. rewrite app_nil_r.
           rewrite (items_append (new_state w) s a) by (now apply Hsane).
           rewrite <- Permutation_cons_append. simpl. now constructor.
        -- split; [exact He|]. exists (a :: before), st, after.
           rewrite <- app_assoc in Hr', Hp'. subst students.
           now repeat split.
    + specialize (IH (done ++ [a]) (failed a w)).
      assert (Hr1 : reported (stdout (failed a w)) = done ++ [a]).
      { simpl stdout. rewrite reported_app, Hrep. reflexivity. }
      assert (Hp1 : Permutation (done ++ [a])
                      (items (new_state (failed a w))
                         ++ failures (stdout (failed a w)))).
      { simpl new_state. simpl stdout. rewrite failures_app.
        simpl failures at 2. rewrite app_assoc.
        now apply Permutation_app_tail. }
      specialize (IH Hsane Hr1 Hp1).
      destruct (for_each students body (failed a w)) as [[[]|e] w'].
      * now rewrite <- app_assoc in IH.
      * destruct IH as (He & before & st & after & Hs' & Hr' & Hp' & Hfull).
        split; [exact He|]. exists (a :: before), st, after.
        rewrite <- app_assoc in Hr', Hp'. subst students.
        now repeat split.
    + split; [reflexivity|]. exists [], a, students.
      rewrite app_nil_r. now repeat split.
Qed.

(** The ledger of a run. *)
Lemma ledger_groups rand :
  forall previous_state done w,
    sane w -> reported (stdout w) = done ->
    Permutation done (items (new_state w) ++ failures (stdout w)) ->
    exists attempted unattempted,
      done ++ items previous_state = attempted ++ unattempted /\
      reported (stdout (snd (_distribute_students rand previous_state w)))
      = attempted /\
      Permutation attempted
        (items (new_state (snd (_distribute_students rand previous_state w)))
           ++ failures
                (stdout (snd (_distribute_students rand previous_state w)))) /\
      (fst (_distribute_students rand previous_state w) = Ok tt ->
       unattempted = []) /\
      (fst (_distribute_students rand previous_state w) <> Ok tt ->
       fst (_distribute_students rand previous_state w) = Raise ValueError /\
       unattempted <> [] /\
       all_full
         (new_state (snd (_distribute_students rand previous_state w)))).
Proof.
  unfold _distribute_students. intros groups.
  induction groups as [|[key students] rest IH];
    intros done w Hsane Hrep Hperm.
  - exists done, []. cbn [for_each]. unfold ret. cbn [fst snd].
    split; [reflexivity|]. split; [exact Hrep|]. split; [exact Hperm|].
    split; [reflexivity|]. intros H. now contradiction H.
  - assert (Hitems : items ((key, students) :: rest) = students ++ items rest)
      by reflexivity.
    rewrite Hitems. cbn [for_each]. unfold bind.
    destruct students as [|st students].
    { simpl distribute_group. cbv beta iota. simpl app.
      now apply IH. }
    unfold distribute_group. unfold bind at 1. unfold print at 1.
    set (w1 := mkWorld (rng_pos w) (new_state w)
                 (stdout w ++ [PrintGroup key (st :: students)]) (history w)).
    assert (Hw1 : sane w1) by exact Hsane.
    assert (Hr1 : reported (stdout w1) = done).
    { unfold w1. simpl stdout. rewrite reported_app, Hrep. simpl.
      now rewrite app_nil_r. }
    assert (Hp1 : Permutation done
                    (items (new_state w1) ++ failures (stdout w1))).
    { unfold w1. simpl new_state. simpl stdout. rewrite failures_app.
      simpl failures at 2. now rewrite app_nil_r. }
    assert (Hb : forall body : nat -> M world unit,
               (forall st w, sane w -> outcome st w (body st w)) ->
               let out :=
                 match for_each (st :: students) body w1 with
                 | (Ok _, s') => for_each rest (distribute_group rand) s'
                 | (Raise e, s') => (Raise e, s')
                 end in
               exists attempted unattempted,
                 done ++ (st :: students) ++ items rest
                 = attempted ++ unattempted /\
                 reported (stdout (snd out)) = attempted /\
                 Permutation attempted
                   (items (new_state (snd out)) ++ failures (stdout (snd out))) /\
                 (fst out = Ok tt -> unattempted = []) /\
                 (fst out <> Ok tt ->
                  fst out = Raise ValueError /\ unattempted <> [] /\
                  all_full (new_state (snd out)))).
    { intros body Hbody. cbn zeta.
      pose proof (ledger_students body Hbody (st :: students) done w1
                    Hw1 Hr1 Hp1) as H.
      destruct (for_each (st :: students) body w1) as [[[]|e] w2].
      - destruct H as (Hs2 & Hr2 & Hp2).
        destruct (IH (done ++ st :: students) w2 Hs2 Hr2 Hp2)
          as (att & un & Heq & Hrest).
        exists att, un. split; [|exact Hrest].
        now rewrite <- Heq, <- app_assoc.
      - destruct H as (-> & before & st0 & after & Hs2 & Hr2 & Hp2 & Hfull).
        exists (done ++ before), (st0 :: after ++ items rest).
        cbn [fst snd]. split; [|split; [exact Hr2|split; [exact Hp2|split]]].
        + rewrite Hs2, <- !app_assoc. reflexivity.
        + discriminate.
        + intros _. split; [reflexivity|]. split; [discriminate | exact Hfull]. }
    destruct (negb (key =? 0)).
    + apply Hb. intros. now apply place_constrained_outcome.
    + apply Hb. intros. now apply place_free_outcome.
Qed.

(** X5.  Accounting, for a previous state of any size.  The row indices of
    the previous state, in the order of the dictionary, split into those
    the run dealt with and those it left.  The ones dealt with are the
    students of the printed lines, in the order of the lines, and each of
    them is in the final [new_state] or was reported as not placed, as many
    times as the previous state lists it.  When the run returns, none is
    left; when it raises, it is [ValueError], the run stopped at the first
    of those left, and every station is full. *)
Theorem allocation_accounting (rand : nat -> Z) (previous_state : dict) :
  let out := allocate rand previous_state in
  exists attempted unattempted,
    items previous_state = attempted ++ unattempted /\
    reported (stdout (snd out)) = attempted /\
    Permutation attempted
      (items (new_state (snd out)) ++ failures (stdout (snd out))) /\
    Permutation (items previous_state)
      (items (new_state (snd out)) ++ failures (stdout (snd out))
         ++ unattempted) /\
    (fst out = Ok tt -> unattempted = []) /\
    (fst out <> Ok tt ->
     fst out = Raise ValueError /\ unattempted <> [] /\
     all_full (new_state (snd out))).
Proof.
  cbn zeta. unfold allocate.
  destruct (ledger_groups rand previous_state [] initial_world
              empty_state_sane eq_refl)
    as (attempted & unattempted & Heq & Hrep & Hperm & Hok & Hraise).
  { simpl. constructor. }
  exists attempted, unattempted. simpl in Heq.
  split; [exact Heq|]. split; [exact Hrep|]. split; [exact Hperm|].
  split; [|split; [exact Hok | exact Hraise]].
  rewrite Heq, app_assoc. now apply Permutation_app_tail.
Qed.

(** X6.  Uniqueness is kept: when the previous state lists no row index
    twice, neither does the new state, whatever its size and however the
    run ends; so no row is under two stations. *)
Theorem allocation_keeps_uniqueness (rand : nat -> Z) (previous_state : dict) :
  NoDup (items previous_state) ->
  let w := snd (allocate rand previous_state) in
  NoDup (items (new_state w)) /\ unique_station (new_state w).
Proof.
  intros Hnd.
  destruct (accounting_groups rand (items previous_state) previous_state
              initial_world empty_state_sane) as (un & Hperm & _).
  { simpl. now rewrite !app_nil_r. }
  cbn zeta. fold (allocate rand previous_state) in Hperm.
  assert (H : NoDup (items (new_state (snd (allocate rand previous_state))))).
  { apply (Permutation_NoDup (Permutation_sym Hperm)) in Hnd.
    apply NoDup_app_remove_l in Hnd. now apply NoDup_app_remove_r in Hnd. }
  split; [exact H | now apply unique_of_NoDup].
Qed.

Lemma allocation_keeps_uniqueness_witness :
  NoDup (items (new_state (snd (allocate counting overflow_previous_state)))).
Proof.
  apply (allocation_keeps_uniqueness counting overflow_previous_state).
  unfold items, overflow_previous_state. simpl.
  apply (NoDup_app_remove_r _ [] ). rewrite app_nil_r.
  exact (seq_NoDup 26 0).
Defined.

(** An exception that leaves a run is the capacity error. *)
Lemma distribute_result rand previous_state w :
  sane w ->
  fst (_distribute_students rand previous_state w) = Ok tt \/
  fst (_distribute_students rand previous_state w) = Raise ValueError.
Proof.
  intros Hsane.
  assert (Hloop : forall body : nat -> M world unit,
             (forall st w, sane w -> outcome st w (body st w)) ->
             forall students w, sane w ->
               match for_each students body w with
               | (Ok _, w') => sane w'
               | (Raise e, _) => e = ValueError
               end).
  { intros body Hbody students w0 Hs.
    apply (for_each_rule body (fun _ w => sane w)
             (fun out => match out with
                         | (Ok _, w') => sane w'
                         | (Raise e, _) => e = ValueError
                         end)); [auto | | assumption].
    intros st rest w1 Hs1.
    destruct (Hbody st w1 Hs1) as [s k Hs' Hl|Hf|Hf];
      [now apply sane_placed | exact Hs1 | reflexivity]. }
  unfold _distribute_students.
  apply (for_each_rule (distribute_group rand) (fun _ w => sane w)
           (fun out => fst out = Ok tt \/ fst out = Raise ValueError));
    [now left | | assumption].
  intros [key students] rest w0 Hs0.
  destruct students as [|st students]; [exact Hs0|].
  unfold distribute_group. unfold bind at 1. unfold print at 1.
  match goal with
  | |- context [?f ?w1] =>
      match f with
      | (if _ then _ else _) => set (w1' := w1)
      end
  end.
  assert (Hs1 : sane w1') by exact Hs0.
  assert (Hb : forall body : nat -> M world unit,
             (forall st w, sane w -> outcome st w (body st w)) ->
             match for_each (st :: students) body w1' with
             | (Ok _, s') => sane s'
             | (Raise e, s') =>
                 fst (@Raise unit e, s') = Ok tt \/
                 fst (@Raise unit e, s') = Raise ValueError
             end).
  { intros body Hbody. pose proof (Hloop body Hbody (st :: students) w1' Hs1) as H.
    destruct (for_each (st :: students) body w1') as [[[]|e] w2]; [exact H|].
    right. simpl. now rewrite H. }
  destruct (negb (key =? 0)).
  - apply Hb. intros. now apply place_constrained_outcome.
  - apply Hb. intros. now apply place_free_outcome.
Qed.

(** X7.  Station 0 is never a target: however the run ends, the new state
    still has the keys 0..8, its group 0 is empty, and it holds at most 24
    row indices in all. *)
Theorem station_zero_unused (rand : nat -> Z) (previous_state : dict) :
  let w := snd (allocate rand previous_state) in
  shaped (new_state w) /\
  members (new_state w) 0 = [] /\
  (length (items (new_state w)) <= 24)%nat.
Proof.
  destruct (distribute_invariant rand
              (fun w => shaped (new_state w) /\ members (new_state w) 0 = []))
    with (previous_state := previous_state) (w := initial_world)
    as ([_ Hcap] & Hsh & H0).
  - intros st s k w _ [Hsh H0] Hs _. simpl. split; [now apply shaped_append|].
    unfold members. rewrite dict_get_append_other by lia. exact H0.
  - intros st w _ H. exact H.
  - intros key students w _ H. exact H.
  - exact empty_state_sane.
  - split; reflexivity.
  - cbn zeta. fold (allocate rand previous_state) in *.
    split; [exact Hsh|]. split; [exact H0|].
    pose proof (capacity_count _ Hsh Hcap) as Hc.
    rewrite load_members, H0 in Hc. simpl in Hc. lia.
Qed.

Lemma replay_app log log' d : replay (log ++ log') d = replay log' (replay log d).
Proof. unfold replay. apply fold_left_app. Qed.

(** X8.  The log tells the state: the final [new_state] is the empty
    dictionary to which the printed assignments are applied in order, so a
    student printed as assigned to a station is a member of that station. *)
Theorem log_replays_state (rand : nat -> Z) (previous_state : dict) :
  let w := snd (allocate rand previous_state) in
  new_state w = replay (stdout w) empty_state /\
  (forall st s, In (PrintAssigned st s) (stdout w) ->
                In st (members (new_state w) s)).
Proof.
  destruct (distribute_invariant rand
              (fun w => new_state w = replay (stdout w) empty_state /\
                        forall st s, In (PrintAssigned st s) (stdout w) ->
                                     In st (members (new_state w) s)))
    with (previous_state := previous_state) (w := initial_world)
    as (_ & H).
  - intros st s k w [Hst _] [Heq Hin] Hs _. simpl. split.
    + rewrite replay_app. simpl. now rewrite <- Heq.
    + intros st' s' Hi. apply in_app_or in Hi.
      rewrite in_members_append by (now apply Hst).
      destruct Hi as [Hi|[Hi|[]]]; [left; now apply Hin|].
      injection Hi as <- <-. now right.
  - intros st w _ [Heq Hin]. simpl. split.
    + rewrite replay_app. simpl. exact Heq.
    + intros st' s' Hi. apply in_app_or in Hi.
      destruct Hi as [Hi|[Hi|[]]]; [now apply Hin | discriminate].
  - intros key students w _ [Heq Hin]. simpl. split.
    + rewrite replay_app. simpl. exact Heq.
    + intros st' s' Hi. apply in_app_or in Hi.
      destruct Hi as [Hi|[Hi|[]]]; [now apply Hin | discriminate].
  - exact empty_state_sane.
  - split; [reflexivity | intros st s []].
  - exact H.
Qed.

(** X9.  Overflow is always reported: when the previous state lists more than
    24 row indices, the run either raises [ValueError] or prints a failure
    for at least one student; it never returns silently. *)
Theorem overflow_reported (rand : nat -> Z) (previous_state : dict) :
  (24 < length (items previous_state))%nat ->
  let out := allocate rand previous_state in
  fst out = Raise ValueError \/
  (fst out = Ok tt /\ failures (stdout (snd out)) <> []).
Proof.
  intros Hmany. cbn zeta.
  destruct (distribute_result rand previous_state initial_world empty_state_sane)
    as [Hok|Hraise]; [|now left].
  right. split; [exact Hok|].
  destruct (accounting_groups rand (items previous_state) previous_state
              initial_world empty_state_sane) as (un & Hperm & Hun).
  { simpl. now rewrite !app_nil_r. }
  rewrite (Hun Hok) in Hperm. simpl in Hperm.
  assert (Hsh : shaped (new_state (snd (allocate rand previous_state))) /\
                members (new_state (snd (allocate rand previous_state))) 0 = []
                /\ within_capacity
                     (new_state (snd (allocate rand previous_state)))).
  { destruct (distribute_invariant rand
                (fun w => shaped (new_state w) /\ members (new_state w) 0 = []))
      with (previous_state := previous_state) (w := initial_world)
      as ([_ Hcap] & Hsh & H0).
    - intros st s k w _ [Hsh H0] Hs _. simpl. split; [now apply shaped_append|].
      unfold members. rewrite dict_get_append_other by lia. exact H0.
    - intros st w _ H. exact H.
    - intros key students w _ H. exact H.
    - exact empty_state_sane.
    - split; reflexivity.
    - now repeat split. }
  destruct Hsh as (Hsh & H0 & Hcap).
  pose proof (capacity_count _ Hsh Hcap) as Hc.
  rewrite load_members, H0 in Hc. simpl in Hc.
  intros Hnone. fold (allocate rand previous_state) in Hperm.
  rewrite Hnone, app_nil_r in Hperm.
  apply Permutation_length in Hperm. lia.
Qed.

Lemma overflow_reported_witness :
  let out := allocate counting overflow_previous_state in
  fst out = Raise ValueError \/
  (fst out = Ok tt /\ failures (stdout (snd out)) <> []).
Proof.
  apply overflow_reported. vm_compute. lia.
Defined.


(** * Further properties of the codec *)

(** X10.  Valid labels decode to their group: in a column without
    infinities, a row that is missing or converts to 0 is listed in group 0,
    a row that converts to an integer of 1..8 is listed in that group
    (whether the cell is an integer, a float, a boolean or a numeric
    string); no warning is printed for it and it is in no second group. *)
Theorem decode_valid_labels (column : list raw) (i : nat) (value : raw) :
  Forall finite column ->
  nth_error column i = Some value ->
  exists d,
    decode column = (Ok tt, d) /\
    (isnull value = true \/ converts_to value 0 ->
     In i (members (previous_state d) 0) /\ silent d i) /\
    (forall z, converts_to value z -> 1 <= z <= 8 ->
               In i (members (previous_state d) z) /\ silent d i) /\
    (forall key key',
       In i (members (previous_state d) key) ->
       In i (members (previous_state d) key') -> key = key').
Proof.
  intros Hfin Hn.
  destruct (decode_spec column Hfin) as (d & Hrun & _ & Hmem & Hwarn).
  exists d. split; [exact Hrun|].
  assert (Hsilent : forall key, key_of value = Ok key -> silent d i).
  { intros key Hk value' Hin. apply Hwarn in Hin. destruct Hin as (Hn' & Hk').
    rewrite Hn in Hn'. injection Hn' as <-. congruence. }
  split; [|split].
  - intros H.
    assert (Hk : key_of value = Ok 0).
    { destruct H as [H|[Hnull Hint]]; [now apply key_of_null|].
      now rewrite key_of_present. }
    split; [|now apply (Hsilent 0)].
    apply Hmem. split; [lia|]. now exists value.
  - intros z [Hnull Hint] Hz.
    assert (Hk : key_of value = Ok z) by (now rewrite key_of_present).
    split; [|now apply (Hsilent z)].
    apply Hmem. split; [lia|]. now exists value.
  - intros key key' H1 H2. apply Hmem in H1, H2.
    destruct H1 as (_ & v1 & Hn1 & Hk1). destruct H2 as (_ & v2 & Hn2 & Hk2).
    rewrite Hn in Hn1, Hn2. injection Hn1 as <-. injection Hn2 as <-. congruence.
Qed.

Lemma decode_valid_labels_witness :
  exists d,
    decode [RStr " 7 "; RNull; RBool true; RFloat (1 # 2)] = (Ok tt, d) /\
    In 0%nat (members (previous_state d) 7) /\
    In 1%nat (members (previous_state d) 0) /\
    In 2%nat (members (previous_state d) 1) /\
    In 3%nat (members (previous_state d) 0).
Proof.
  set (column := [RStr " 7 "; RNull; RBool true; RFloat (1 # 2)]).
  assert (Hfin : Forall finite column) by (repeat constructor).
  destruct (decode_valid_labels column 0 (RStr " 7 ") Hfin eq_refl)
    as (d & Hrun & _ & H0 & _).
  destruct (decode_valid_labels column 1 RNull Hfin eq_refl)
    as (d1 & Hrun1 & H1 & _).
  destruct (decode_valid_labels column 2 (RBool true) Hfin eq_refl)
    as (d2 & Hrun2 & _ & H2 & _).
  destruct (decode_valid_labels column 3 (RFloat (1 # 2)) Hfin eq_refl)
    as (d3 & Hrun3 & H3 & _).
  rewrite Hrun in Hrun1, Hrun2, Hrun3.
  injection Hrun1 as <-. injection Hrun2 as <-. injection Hrun3 as <-.
  exists d. split; [exact Hrun|]. split; [|split; [|split]].
  - apply (H0 7); [split; reflexivity | lia].
  - apply H1. now left.
  - apply (H2 1); [split; reflexivity | lia].
  - apply H3. right. split; reflexivity.
Defined.

Lemma ascending_snoc l a :
  ascending l -> (forall x, In x l -> (x < a)%nat) -> ascending (l ++ [a]).
Proof.
  induction l as [|x l IH]; simpl; intros Hasc Hlt.
  - split; [intros y [] | exact I].
  - destruct Hasc as [Hx Hasc]. split.
    + intros y Hy. apply in_app_or in Hy. destruct Hy as [Hy|[<-|[]]].
      * now apply Hx.
      * apply Hlt. now left.
    + apply IH; [assumption|]. intros y Hy. apply Hlt. now right.
Qed.

(** The decode loop keeps the keys, and each group in ascending row order. *)
Lemma collect_ascending column :
  forall a s,
    shaped (previous_state s) ->
    (forall key, ascending (members (previous_state s) key)) ->
    (forall key i, In i (members (previous_state s) key) -> (i < a)%nat) ->
    let s' := snd (for_each (combine (seq a (length column)) column) collect_row s) in
    shaped (previous_state s') /\
    (forall key, ascending (members (previous_state s') key)).
Proof.
  induction column as [|v column IH]; intros a s Hsh Hasc Hb; cbn zeta.
  - simpl. now split.
  - cbn [length seq combine for_each]. unfold bind. rewrite collect_row_eq.
    assert (Hkeep : forall key i, In i (members (previous_state s) key) ->
                                  (i < S a)%nat).
    { intros key i Hi. specialize (Hb key i Hi). lia. }
    assert (Hstop : shaped (previous_state s) /\
                    (forall key, ascending (members (previous_state s) key)))
      by now split.
    destruct (key_of v) as [key|[]]; try exact Hstop;
      try (apply IH; assumption).
    destruct (dict_mem (previous_state s) key) eqn:Em;
      [|apply IH; assumption].
    apply dict_mem_get in Em. apply IH; simpl previous_state.
    + now apply shaped_append.
    + intros k. rewrite members_append by assumption.
      destruct (key =? k); [|apply Hasc].
      apply ascending_snoc; [apply Hasc | apply Hb].
    + intros k i. rewrite in_members_append by assumption.
      intros [Hi|[_ <-]]; [now apply (Hkeep k) | lia].
Qed.

(** X11.  The shape of a decoded previous state, for every column and
    however the decode ends: the keys are 0..8, no row is listed twice, only
    rows of the column are listed, and each group lists its rows in
    ascending order. *)
Theorem decode_structure (column : list raw) :
  let d := snd (decode column) in
  shaped (previous_state d) /\
  NoDup (items (previous_state d)) /\
  (forall i, In i (items (previous_state d)) -> (i < length column)%nat) /\
  (forall key, ascending (members (previous_state d) key)).
Proof.
  cbn zeta.
  destruct (collect_items column 0 (mkDecoding empty_state []))
    as [Hnd Hb]; [constructor | intros i [] |].
  destruct (collect_ascending column 0 (mkDecoding empty_state []))
    as [Hsh Hasc].
  - reflexivity.
  - intros key. simpl. now rewrite members_empty_state.
  - intros key i. simpl. now rewrite members_empty_state.
  - repeat split; assumption.
Qed.

(** X12.  An infinite float stops the decode: [int] raises [OverflowError],
    which the handler does not catch; the rows before it have been decoded,
    the rows after it are not looked at. *)
Theorem decode_stops_at_infinity
    (before after : list raw) (negative : bool) :
  Forall finite before ->
  exists d,
    decode before = (Ok tt, d) /\
    decode (before ++ RInf negative :: after) = (Raise OverflowError, d).
Proof.
  intros Hfin. destruct (decode_spec before Hfin) as (d & Hrun & _).
  exists d. split; [exact Hrun|].
  unfold decode, _collect_previous_state, enumerate in *.
  rewrite combine_seq_app, for_each_app, Hrun.
  cbn [length seq combine for_each]. unfold bind.
  now rewrite collect_row_eq.
Qed.

Lemma decode_stops_at_infinity_witness :
  exists d,
    decode [RInt 1; RInt 2] = (Ok tt, d) /\
    decode ([RInt 1; RInt 2] ++ RInf false :: [RInt 3])
    = (Raise OverflowError, d).
Proof. apply decode_stops_at_infinity. repeat constructor. Defined.

Lemma set_items_cases key indices :
  forall col,
    (forall i, In i indices -> (i < length col)%nat) \/
    exists col', for_each indices (set_item key) col = (Raise IndexError, col').
Proof.
  induction indices as [|i indices IH]; intros col.
  - left. intros i [].
  - cbn [for_each]. unfold bind, set_item at 1.
    destruct (Nat.ltb_spec i (length col)) as [Hi|Hi].
    + destruct (IH (list_set col i key)) as [Hall|(col' & ->)].
      * left. intros j [<-|Hj]; [assumption|].
        rewrite <- (list_set_length col i key). now apply Hall.
      * right. now exists col'.
    + right. now exists col.
Qed.

Lemma encode_loop_cases state :
  forall col,
    indices_below (length col) state \/
    exists col',
      for_each state (fun entry => for_each (snd entry) (set_item (fst entry))) col
      = (Raise IndexError, col').
Proof.
  induction state as [|[k l] state IH]; intros col.
  - left. intros key l i [].
  - cbn [for_each]. unfold bind. cbn [fst snd].
    destruct (set_items_cases k l col) as [Hall|(col' & ->)];
      [|right; now exists col'].
    destruct (set_items_spec k l col Hall) as (col1 & -> & Hlen & _).
    destruct (IH col1) as [Hrest|(col' & ->)]; [|right; now exists col'].
    left. intros key l' i [E|Hd] Hi.
    + injection E as <- <-. now apply Hall.
    + rewrite <- Hlen. now apply (Hrest key l').
Qed.

(** X13.  The bounds of the encoder: it returns a column, of exactly [rows]
    values, when every listed row index is below [rows], and raises
    [IndexError] when one is not; it raises nothing else. *)
Theorem encode_bounds (rows : nat) (state_dict : dict) :
  (indices_below rows state_dict ->
   exists column_values,
     convert_state_to_column rows state_dict = Ok column_values /\
     length column_values = rows) /\
  (~ indices_below rows state_dict ->
   convert_state_to_column rows state_dict = Raise IndexError).
Proof.
  unfold convert_state_to_column. split.
  - intros Hr.
    destruct (encode_loop state_dict (repeat 0 rows)) as (col & -> & Hlen & _).
    { now rewrite repeat_length. }
    exists col. split; [reflexivity|]. now rewrite Hlen, repeat_length.
  - intros Hnr.
    destruct (encode_loop_cases state_dict (repeat 0 rows)) as [Hr|(col' & ->)];
      [|reflexivity].
    rewrite repeat_length in Hr. contradiction.
Qed.

Lemma encode_bounds_witness :
  convert_state_to_column 2 [(1, [0; 2]%nat); (2, [1%nat])] = Raise IndexError.
Proof.
  apply (proj2 (encode_bounds 2 [(1, [0; 2]%nat); (2, [1%nat])])).
  intros H. specialize (H 1 [0; 2]%nat 2%nat (or_introl eq_refl)).
  simpl in H. assert (2 < 2)%nat by (apply H; tauto). lia.
Defined.

Lemma encode_loop_labels state :
  forall col,
    indices_below (length col) state ->
    exists col',
      for_each state (fun entry => for_each (snd entry) (set_item (fst entry))) col
        = (Ok tt, col') /\
      length col' = length col /\
      (forall i,
         nth i col' 0 =
         fold_left
           (fun label entry =>
              if existsb (Nat.eqb i) (snd entry) then fst entry else label)
           state (nth i col 0)).
Proof.
  induction state as [|[k l] state IH]; intros col Hr.
  - exists col. now repeat split.
  - cbn [for_each]. unfold bind. cbn [fst snd].
    destruct (set_items_spec k l col) as (col1 & -> & Hlen1 & Hnth1).
    { intros i Hi. apply (Hr k l i); [now left | assumption]. }
    destruct (IH col1) as (col' & Hrun & Hlen & Hnth).
    { intros key l' i Hd Hi. rewrite Hlen1.
      apply (Hr key l' i); [now right | assumption]. }
    exists col'. split; [exact Hrun|]. split; [congruence|].
    intros i. rewrite Hnth. simpl. now rewrite Hnth1.
Qed.

(** X14.  The last writer wins: whether or not a row index is listed more
    than once, the encoded column holds at each row the key of the last
    entry of the dictionary, in its order, that lists the row, and 0 where
    no entry does. *)
Theorem encode_last_writer_wins (rows : nat) (state_dict : dict) :
  indices_below rows state_dict ->
  exists column_values,
    convert_state_to_column rows state_dict = Ok column_values /\
    forall i, (i < rows)%nat ->
              nth_error column_values i = Some (last_label state_dict i).
Proof.
  intros Hr. unfold convert_state_to_column.
  destruct (encode_loop_labels state_dict (repeat 0 rows))
    as (col & -> & Hlen & Hnth).
  { now rewrite repeat_length. }
  rewrite repeat_length in Hlen.
  exists col. split; [reflexivity|]. intros i Hi.
  rewrite (nth_error_nth' col 0) by lia. f_equal.
  rewrite Hnth, nth_repeat. reflexivity.
Qed.

Lemma encode_last_writer_wins_witness :
  exists column_values,
    convert_state_to_column 3 [(1, [0; 1]%nat); (2, [1%nat]); (3, [])]
      = Ok column_values /\
    nth_error column_values 1 = Some 2.
Proof.
  destruct (encode_last_writer_wins 3 [(1, [0; 1]%nat); (2, [1%nat]); (3, [])])
    as (col & Hrun & Hlab).
  - intros key l i Hd Hi. simpl in Hd.
    repeat (destruct Hd as [Hd|Hd];
            [injection Hd as <- <-; simpl in Hi; lia|]).
    contradiction.
  - exists col. split; [exact Hrun|]. apply (Hlab 1%nat). lia.
Defined.

Lemma dict_get_in d key l : dict_get d key = Some l -> In (key, l) d.
Proof.
  induction d as [|[k l'] d IH]; simpl; [discriminate|].
  destruct (Z.eqb_spec k key) as [->|Hne].
  - intros [= ->]. now left.
  - intros H. right. now apply IH.
Qed.

Lemma shaped_in_get d key l :
  shaped d -> In (key, l) d -> dict_get d key = Some l /\ 0 <= key <= 8.
Proof.
  intros Hsh.
  destruct (shaped_entries d Hsh)
    as (l0 & l1 & l2 & l3 & l4 & l5 & l6 & l7 & l8 & ->).
  simpl. intros H.
  repeat (destruct H as [H|H]; [injection H as <- <-; split; [reflexivity | lia]|]).
  contradiction.
Qed.

Lemma nth_error_map_RInt col i :
  nth_error (map RInt col) i = option_map RInt (nth_error col i).
Proof. apply nth_error_map. Qed.

Lemma key_of_RInt z : key_of (RInt z) = Ok z.
Proof. rewrite key_of_present by reflexivity. reflexivity. Qed.

(** Decoding a column of integers: row [i] is in group [key] exactly when
    the column holds [key] there and [key] is one of 0..8. *)
Lemma decode_integers col :
  exists dec,
    decode (map RInt col) = (Ok tt, dec) /\
    forall key i,
      In i (members (previous_state dec) key) <->
      0 <= key <= 8 /\ nth_error col i = Some key.
Proof.
  assert (Hfin : Forall finite (map RInt col)).
  { apply Forall_forall. intros v Hv. apply in_map_iff in Hv.
    destruct Hv as (z & <- & _). exact I. }
  destruct (decode_spec (map RInt col) Hfin) as (dec & Hrun & _ & Hmem & _).
  exists dec. split; [exact Hrun|].
  intros key i. rewrite Hmem. split.
  - intros (Hk & v & Hn & Hv). split; [exact Hk|].
    rewrite nth_error_map_RInt in Hn.
    destruct (nth_error col i) as [z|]; [|discriminate].
    injection Hn as <-. rewrite key_of_RInt in Hv. congruence.
  - intros (Hk & Hn). split; [exact Hk|]. exists (RInt key).
    rewrite nth_error_map_RInt, Hn. split; [reflexivity | apply key_of_RInt].
Qed.

(** X15.  Round trip, as the driver chains the runs: encoding a new state
    (keys 0..8, group 0 empty, row indices below [rows] and under one
    station each) and decoding the column gives back the same stations 1..8,
    row for row; group 0 of the decoded state is the set of rows that no
    station listed. *)
Theorem encode_decode_round_trip (rows : nat) (state_dict : dict) :
  shaped state_dict -> members state_dict 0 = [] ->
  indices_below rows state_dict -> unique_station state_dict ->
  exists column_values dec,
    convert_state_to_column rows state_dict = Ok column_values /\
    decode (map RInt column_values) = (Ok tt, dec) /\
    (forall key i, 1 <= key <= 8 ->
       (In i (members (previous_state dec) key) <->
        In i (members state_dict key))) /\
    (forall i, In i (members (previous_state dec) 0) <->
               (i < rows)%nat /\ unlisted state_dict i).
Proof.
  intros Hsh H0 Hr Hu.
  destruct (encode_spec rows state_dict Hr Hu) as (col & Henc & Hlen & Hzero & Hkey).
  destruct (decode_integers col) as (dec & Hdec & Hmem).
  exists col, dec. split; [exact Henc|]. split; [exact Hdec|].
  assert (Hlisted : forall i key l, In (key, l) state_dict -> In i l -> key <> 0).
  { intros i key l Hd Hi ->.
    destruct (shaped_in_get _ _ _ Hsh Hd) as [Hg _].
    unfold members in H0. rewrite Hg in H0. subst l. contradiction. }
  split.
  - intros key i Hk. rewrite Hmem. split.
    + intros (_ & Hn).
      assert (Hi : (i < rows)%nat).
      { rewrite <- Hlen. apply nth_error_Some. congruence. }
      destruct (listed_dec state_dict i) as [(key' & l & Hd & Hil)|Hun].
      * rewrite (Hkey key' l i Hd Hil) in Hn. injection Hn as ->.
        destruct (shaped_in_get _ _ _ Hsh Hd) as [Hg _].
        unfold members. now rewrite Hg.
      * rewrite (Hzero i Hi Hun) in Hn. injection Hn as <-. lia.
    + intros Hi. split; [lia|]. unfold members in Hi.
      destruct (dict_get state_dict key) as [l|] eqn:Eg; [|contradiction].
      apply (Hkey key l i); [now apply dict_get_in | assumption].
  - intros i. rewrite Hmem. split.
    + intros (_ & Hn).
      assert (Hi : (i < rows)%nat).
      { rewrite <- Hlen. apply nth_error_Some. congruence. }
      split; [exact Hi|]. intros key l Hd Hil.
      rewrite (Hkey key l i Hd Hil) in Hn. injection Hn as ->.
      now apply (Hlisted i 0 l).
    + intros (Hi & Hun). split; [lia|]. now apply Hzero.
Qed.

Lemma encode_decode_round_trip_witness :
  exists column_values dec,
    convert_state_to_column 4 first_full_state = Ok column_values /\
    decode (map RInt column_values) = (Ok tt, dec) /\
    (forall key i, 1 <= key <= 8 ->
       (In i (members (previous_state dec) key) <->
        In i (members first_full_state key))) /\
    (forall i, In i (members (previous_state dec) 0) <->
               (i < 4)%nat /\ unlisted first_full_state i).
Proof.
  apply encode_decode_round_trip.
  - reflexivity.
  - reflexivity.
  - intros key l i Hd Hi. simpl in Hd.
    repeat (destruct Hd as [Hd|Hd];
            [injection Hd as <- <-; simpl in Hi; lia|]).
    contradiction.
  - apply unique_of_NoDup. unfold items. simpl.
    repeat constructor; simpl; lia.
Defined.

(** * The driver loop *)

(** The column that encodes a new state of the allocator. *)
Lemma labels_of_state rows d :
  shaped d -> members d 0 = [] -> within_capacity d ->
  NoDup (items d) -> (forall i, In i (items d) -> (i < rows)%nat) ->
  exists labels,
    convert_state_to_column rows d = Ok labels /\
    length labels = rows /\
    (forall i, In i (items d) ->
               exists s, 1 <= s <= 8 /\ nth_error labels i = Some s) /\
    (forall i, (i < rows)%nat -> ~ In i (items d) ->
               nth_error labels i = Some 0) /\
    at_most_three (map RInt labels).
Proof.
  intros Hsh H0 Hcap Hnd Hb.
  assert (Hr : indices_below rows d).
  { intros key l i Hd Hi. apply Hb, in_items. now exists key, l. }
  destruct (encode_spec rows d Hr (unique_of_NoDup d Hnd))
    as (labels & Henc & Hlen & Hzero & Hkey).
  assert (Hstation : forall key l i, In (key, l) d -> In i l ->
                       1 <= key <= 8 /\ In i (members d key)).
  { intros key l i Hd Hi.
    destruct (shaped_in_get _ _ _ Hsh Hd) as [Hg Hk].
    assert (Hm : members d key = l) by (unfold members; now rewrite Hg).
    split; [|now rewrite Hm].
    destruct (Z.eq_dec key 0) as [->|]; [|lia].
    rewrite H0 in Hm. subst l. contradiction. }
  exists labels. split; [exact Henc|]. split; [exact Hlen|]. split; [|split].
  - intros i Hi. apply in_items in Hi. destruct Hi as (key & l & Hd & Hi).
    exists key. split; [now apply (Hstation key l i) | now apply (Hkey key l)].
  - intros i Hi Hout. apply Hzero; [exact Hi|].
    intros key l Hd Hil. apply Hout, in_items. now exists key, l.
  - intros s rows_of_s Hs Hnd' Hall.
    apply Nat.le_trans with (length (members d s)).
    + apply NoDup_incl_length; [exact Hnd'|].
      intros i Hi. specialize (Hall i Hi).
      rewrite nth_error_map_RInt in Hall.
      destruct (nth_error labels i) as [z|] eqn:En; [|discriminate].
      injection Hall as ->.
      assert (Hlt : (i < rows)%nat).
      { rewrite <- Hlen. apply nth_error_Some. congruence. }
      destruct (listed_dec d i) as [(key & l & Hd & Hil)|Hun].
      * rewrite (Hkey key l i Hd Hil) in En. injection En as ->.
        now apply (Hstation s l i).
      * rewrite (Hzero i Hlt Hun) in En. injection En as <-. lia.
    + rewrite <- load_members. now apply Hcap.
Qed.

Lemma last_column_in f column :
  last_column f = Ok column -> exists name, In (name, column) f.
Proof.
  unfold last_column. destruct (rev f) as [|[name values] r] eqn:E; [discriminate|].
  intros [= ->]. exists name. apply in_rev. rewrite E. now left.
Qed.

Lemma last_column_snoc f name values :
  last_column (f ++ [(name, values)]) = Ok values.
Proof. unfold last_column. now rewrite rev_app_distr. Qed.

Lemma frame_rows_rectangular n f column :
  rectangular n f -> last_column f = Ok column ->
  frame_rows f = n /\ length column = n.
Proof.
  intros Hrect Hlast. destruct (last_column_in f column Hlast) as (name & Hin).
  split; [|now apply (Hrect name)].
  destruct f as [|[n0 v0] f]; [contradiction|].
  simpl. apply (Hrect n0). now left.
Qed.

(** A decoded previous state lists rows of the column, each once. *)
Lemma decode_items column :
  NoDup (items (previous_state (snd (decode column)))) /\
  (forall i, In i (items (previous_state (snd (decode column)))) ->
             (i < length column)%nat).
Proof.
  destruct (collect_items column 0 (mkDecoding empty_state []))
    as [Hnd Hb]; [constructor | intros i [] |].
  split; assumption.
Qed.

(** One call of [add_template_column], step by step. *)
Lemma session_step
    (rand : nat -> Z) (csv f : frame) (column_name : string)
    (pos n : nat) (column : list raw) :
  rectangular n f -> (n <= 24)%nat ->
  last_column f = Ok column -> Forall finite column ->
  has_column column_name f = false ->
  exists labels pos' d,
    decode column = (Ok tt, d) /\
    session_add_template_column rand csv column_name (mkSession (Some f) pos)
    = (Ok tt, mkSession (Some (f ++ [(column_name, map RInt labels)])) pos') /\
    length labels = n /\
    (forall i, In i (items (previous_state d)) ->
               exists s, 1 <= s <= 8 /\ nth_error labels i = Some s) /\
    (forall i, (i < n)%nat -> ~ In i (items (previous_state d)) ->
               nth_error labels i = Some 0) /\
    at_most_three (map RInt labels).
Proof.
  intros Hrect Hn Hlast Hfin Hfresh.
  destruct (frame_rows_rectangular n f column Hrect Hlast) as [Hrows Hlen].
  destruct (decode_spec column Hfin) as (d & Hdec & _).
  pose proof (decode_items column) as Hstruct.
  rewrite Hdec in Hstruct. simpl snd in Hstruct.
  destruct Hstruct as (Hnd & Hb). rewrite Hlen in Hb.
  assert (Hcount : (length (items (previous_state d)) <= 24)%nat).
  { apply Nat.le_trans with n; [|assumption].
    rewrite <- (length_seq n 0).
    apply NoDup_incl_length; [assumption|].
    intros i Hi. apply in_seq. specialize (Hb i Hi). lia. }
  destruct (allocation_returns rand pos (previous_state d) Hcount)
    as (w & Hrun & Hsh & H0 & Hcap & Hperm).
  destruct (labels_of_state n (new_state w) Hsh H0 Hcap) as
    (labels & Henc & Hll & Hkept & Hskipped & Hthree).
  { apply (Permutation_NoDup (Permutation_sym Hperm) Hnd). }
  { intros i Hi. apply Hb. now apply (Permutation_in _ Hperm). }
  exists labels, (rng_pos w), d. split; [exact Hdec|]. split.
  - assert (Htf : session_template_function rand f (mkSession (Some f) pos)
                  = (Ok (new_state w), mkSession (Some f) (rng_pos w))).
    { unfold session_template_function. rewrite Hlast, Hdec.
      cbn [draws_used data]. now rewrite Hrun. }
    assert (Hset : set_column column_name (map RInt labels) f
                   = Ok (f ++ [(column_name, map RInt labels)])).
    { unfold set_column. destruct f as [|c f']; [discriminate Hlast|].
      now rewrite length_map, Hll, Hrows, Nat.eqb_refl, Hfresh. }
    unfold session_add_template_column, bind, current_data, lift.
    cbn [data]. rewrite Htf, Hrows, Henc, Hset. reflexivity.
  - split; [exact Hll|]. split; [|split; [|exact Hthree]].
    + intros i Hi. apply Hkept. now apply (Permutation_in _ (Permutation_sym Hperm)).
    + intros i Hi Hout. apply Hskipped; [exact Hi|].
      intros Hin. apply Hout. now apply (Permutation_in _ Hperm).
Qed.

(** X16.  One call of [add_template_column] on a rectangular table of at
    most 24 rows whose last column has no infinity, with a column name not
    yet in the table: the call returns and the table gains one column at the
    end, of the same length; a row that the decode kept holds a station
    label of 1..8 there, a row that it skipped holds 0, and no station label
    is used more than three times. *)
Theorem add_template_column_labels
    (rand : nat -> Z) (csv f : frame) (column_name : string)
    (pos n : nat) (column : list raw) :
  rectangular n f -> (n <= 24)%nat ->
  last_column f = Ok column -> Forall finite column ->
  has_column column_name f = false ->
  exists labels pos' d,
    decode column = (Ok tt, d) /\
    session_add_template_column rand csv column_name (mkSession (Some f) pos)
    = (Ok tt, mkSession (Some (f ++ [(column_name, map RInt labels)])) pos') /\
    length labels = n /\
    (forall i, In i (items (previous_state d)) ->
               exists s, 1 <= s <= 8 /\ nth_error labels i = Some s) /\
    (forall i, (i < n)%nat -> ~ In i (items (previous_state d)) ->
               nth_error labels i = Some 0) /\
    at_most_three (map RInt labels).
Proof. apply session_step. Qed.

Lemma add_template_column_labels_witness :
  exists labels pos' d,
    decode test_column = (Ok tt, d) /\
    session_add_template_column counting [] "Lab_3"
      (mkSession (Some [("Lab_2"%string, test_column)]) 0)
    = (Ok tt, mkSession (Some ([("Lab_2"%string, test_column)]
                                 ++ [("Lab_3"%string, map RInt labels)])) pos') /\
    length labels = 6%nat /\
    (forall i, In i (items (previous_state d)) ->
               exists s, 1 <= s <= 8 /\ nth_error labels i = Some s) /\
    (forall i, (i < 6)%nat -> ~ In i (items (previous_state d)) ->
               nth_error labels i = Some 0) /\
    at_most_three (map RInt labels).
Proof.
  apply add_template_column_labels.
  - intros name values [E|[]]. now injection E as <- <-.
  - lia.
  - reflexivity.
  - repeat constructor.
  - reflexivity.
Defined.

Lemma label_cell_finite column : Forall label_cell column -> Forall finite column.
Proof.
  apply Forall_impl. intros v (z & -> & _). exact I.
Qed.

Lemma station_cell_label value : station_cell value -> label_cell value.
Proof. intros (z & -> & Hz). exists z. split; [reflexivity | lia]. Qed.

Lemma members_in_items d key i : In i (members d key) -> In i (items d).
Proof.
  unfold members. destruct (dict_get d key) as [l|] eqn:E; [|contradiction].
  intros Hi. apply in_items. exists key, l. split; [now apply dict_get_in | assumption].
Qed.

(** A call on any last column without infinities gives a labelled column. *)
Lemma session_step_labelled rand csv f name pos n column :
  rectangular n f -> (n <= 24)%nat ->
  last_column f = Ok column -> Forall finite column ->
  has_column name f = false ->
  exists c pos',
    session_add_template_column rand csv name (mkSession (Some f) pos)
    = (Ok tt, mkSession (Some (f ++ [(name, c)])) pos') /\
    labelled n c /\
    (Forall label_cell column -> fully_labelled n c).
Proof.
  intros Hrect Hn Hlast Hfin Hfresh.
  destruct (session_step rand csv f name pos n column Hrect Hn Hlast Hfin Hfresh)
    as (labels & pos' & d & Hdec & Hrun & Hlen & Hkept & Hskipped & Hthree).
  exists (map RInt labels), pos'. split; [exact Hrun|].
  assert (Hcell : forall i z, nth_error labels i = Some z ->
            (In i (items (previous_state d)) -> 1 <= z <= 8) /\
            (~ In i (items (previous_state d)) -> z = 0)).
  { intros i z Hz.
    assert (Hi : (i < n)%nat).
    { rewrite <- Hlen. apply nth_error_Some. congruence. }
    split.
    - intros Hin. destruct (Hkept i Hin) as (s & Hs & Hn'). congruence.
    - intros Hout. rewrite (Hskipped i Hi Hout) in Hz. congruence. }
  split; [|intros Hlabels].
  - split; [now rewrite length_map|]. split; [|exact Hthree].
    apply Forall_forall. intros v Hv. apply in_map_iff in Hv.
    destruct Hv as (z & <- & Hz). apply In_nth_error in Hz.
    destruct Hz as (i & Hz). exists z. split; [reflexivity|].
    destruct (Hcell i z Hz) as [H1 H2].
    destruct (in_dec Nat.eq_dec i (items (previous_state d))) as [Hin|Hout].
    + specialize (H1 Hin). lia.
    + specialize (H2 Hout). lia.
  - split; [now rewrite length_map|]. split; [|exact Hthree].
    destruct (frame_rows_rectangular n f column Hrect Hlast) as [_ Hcl].
    destruct (decode_spec column Hfin) as (d' & Hdec' & _ & Hmem & _).
    rewrite Hdec in Hdec'. injection Hdec' as <-.
    apply Forall_forall. intros v Hv. apply in_map_iff in Hv.
    destruct Hv as (z & <- & Hz). apply In_nth_error in Hz.
    destruct Hz as (i & Hz). exists z. split; [reflexivity|].
    apply (Hcell i z Hz).
    assert (Hi : (i < length column)%nat).
    { rewrite Hcl, <- Hlen. apply nth_error_Some. congruence. }
    destruct (nth_error column i) as [v|] eqn:Ev;
      [|apply nth_error_None in Ev; lia].
    assert (Hv : In v column) by (now apply nth_error_In with i).
    rewrite Forall_forall in Hlabels.
    destruct (Hlabels v Hv) as (k & -> & Hk).
    apply (members_in_items _ k). apply Hmem. split; [exact Hk|].
    exists (RInt k). split; [exact Ev | apply key_of_RInt].
Qed.

Lemma has_column_snoc name name' values f :
  has_column name (f ++ [(name', values)])
  = has_column name f || String.eqb name' name.
Proof.
  unfold has_column. rewrite existsb_app. simpl. now rewrite orb_false_r.
Qed.

(** Adding columns one after the other, from a last column of labels. *)
Lemma session_loop rand csv n :
  (n <= 24)%nat ->
  forall names f pos column,
    rectangular n f -> last_column f = Ok column ->
    Forall label_cell column -> NoDup names ->
    (forall name, In name names -> has_column name f = false) ->
    exists cols pos',
      for_each names (session_add_template_column rand csv)
        (mkSession (Some f) pos)
      = (Ok tt, mkSession (Some (f ++ combine names cols)) pos') /\
      length cols = length names /\
      Forall (fully_labelled n) cols.
Proof.
  intros Hn. induction names as [|name names IH];
    intros f pos column Hrect Hlast Hlab Hnd Hfresh.
  - exists [], pos. simpl. rewrite app_nil_r. now repeat split.
  - inversion Hnd as [|? ? Hnotin Hnd']; subst.
    destruct (session_step_labelled rand csv f name pos n column Hrect Hn Hlast
                (label_cell_finite _ Hlab) (Hfresh name (or_introl eq_refl)))
      as (c & pos1 & Hrun & _ & Hfull).
    specialize (Hfull Hlab).
    destruct (IH (f ++ [(name, c)]) pos1 c) as (cols & pos' & Hloop & Hlen & Hall).
    + intros nm values Hin. apply in_app_or in Hin.
      destruct Hin as [Hin|[E|[]]]; [now apply (Hrect nm)|].
      injection E as <- <-. apply Hfull.
    + apply last_column_snoc.
    + destruct Hfull as (_ & Hcells & _).
      apply (Forall_impl _ station_cell_label Hcells).
    + exact Hnd'.
    + intros nm Hin. rewrite has_column_snoc, (Hfresh nm (or_intror Hin)).
      simpl. apply String.eqb_neq. intros ->. contradiction.
    + exists (c :: cols), pos'. cbn [for_each]. unfold bind at 1.
      rewrite Hrun. cbv beta iota zeta.
      split; [|split].
      * rewrite <- app_assoc in Hloop. exact Hloop.
      * simpl. now rewrite Hlen.
      * now constructor.
Qed.

(** X17.  The driver loop on a rectangular file of at most 24 rows whose
    last column has no infinity and which has no column [Lab_3] ... [Lab_8]
    yet: all six calls return, and the table gains the six columns in this
    order, each with as many rows as the table.  [Lab_3] holds a station
    label or 0 in every row; from [Lab_4] on every row holds a station label
    of 1..8 (the rows that the first decode skipped came back as 0 and are
    placed like group 0); in each column no station is used more than three
    times. *)
Theorem driver_fills_columns
    (rand : nat -> Z) (csv : frame) (n : nat) (column : list raw) :
  rectangular n csv -> (n <= 24)%nat ->
  last_column csv = Ok column -> Forall finite column ->
  (forall i, 3 <= i <= 8 -> has_column (lab_name i) csv = false) ->
  exists first rest pos',
    driver rand csv (mkSession None 0)
    = (Ok tt,
       mkSession
         (Some (csv ++ (lab_name 3, first)
                  :: combine (map lab_name (range 4 5)) rest)) pos') /\
    labelled n first /\
    length rest = 5%nat /\
    Forall (fully_labelled n) rest.
Proof.
  intros Hrect Hn Hlast Hfin Hfresh.
  destruct (session_step_labelled rand csv csv (lab_name 3) 0 n column
              Hrect Hn Hlast Hfin (Hfresh 3 ltac:(lia)))
    as (first & pos1 & Hrun & Hlab & _).
  destruct (session_loop rand csv n Hn (map lab_name (range 4 5))
              (csv ++ [(lab_name 3, first)]) pos1 first)
    as (rest & pos' & Hloop & Hlen & Hall).
  - intros nm values Hin. apply in_app_or in Hin.
    destruct Hin as [Hin|[E|[]]]; [now apply (Hrect nm)|].
    injection E as <- <-. apply Hlab.
  - apply last_column_snoc.
  - apply Hlab.
  - vm_compute. repeat constructor; simpl; intuition discriminate.
  - intros nm Hin. rewrite has_column_snoc.
    assert (Hnm : exists i, 4 <= i <= 8 /\ nm = lab_name i).
    { apply in_map_iff in Hin. destruct Hin as (i & <- & Hi).
      apply in_range in Hi. exists i. split; [simpl in Hi; lia | reflexivity]. }
    destruct Hnm as (i & Hi & ->).
    rewrite (Hfresh i ltac:(lia)). simpl.
    assert (i = 4 \/ i = 5 \/ i = 6 \/ i = 7 \/ i = 8)
      as [->|[->|[->|[->| ->]]]] by lia; reflexivity.
  - exists first, rest, pos'. split; [|split; [exact Hlab | split; assumption]].
    unfold driver, bind, load_data. cbn [draws_used].
    change (map lab_name (range 3 6))
      with (lab_name 3 :: map lab_name (range 4 5)).
    cbn [for_each]. unfold bind at 1. rewrite Hrun. cbv beta iota zeta.
    rewrite <- app_assoc in Hloop. exact Hloop.
Qed.

Lemma driver_fills_columns_witness :
  exists first rest pos',
    driver counting [("Lab_2"%string, test_column)] (mkSession None 0)
    = (Ok tt,
       mkSession
         (Some ([("Lab_2"%string, test_column)] ++ (lab_name 3, first)
                  :: combine (map lab_name (range 4 5)) rest)) pos') /\
    labelled 6 first /\
    length rest = 5%nat /\
    Forall (fully_labelled 6) rest.
Proof.
  apply (driver_fills_columns counting [("Lab_2"%string, test_column)] 6
           test_column).
  - intros name values [E|[]]. now injection E as <- <-.
  - lia.
  - reflexivity.
  - repeat constructor.
  - intros i Hi.
    assert (i = 3 \/ i = 4 \/ i = 5 \/ i = 6 \/ i = 7 \/ i = 8)
      as [->|[->|[->|[->|[->| ->]]]]] by lia; reflexivity.
Defined.

(** The driver on the test column: the first new column keeps 0 for the two
    rows that the decode skipped; the second has a station for every row. *)
Example driver_on_test_column :
  match driver counting [("Lab_2"%string, test_column)] (mkSession None 0) with
  | (Ok _, s) =>
      option_map (firstn 2) (option_map (skipn 1) (data s))
  | (Raise _, _) => None
  end
  = Some [("Lab_3"%string, map RInt [3; 0; 1; 0; 2; 4]);
          ("Lab_4"%string, map RInt [1; 5; 7; 6; 8; 2])].
Proof. vm_compute. reflexivity. Qed.

Lemma last_column_raises f e :
  last_column f = Raise e -> e = IndexError /\ f = [].
Proof.
  unfold last_column. destruct (rev f) as [|[name values] r] eqn:E;
    [|discriminate].
  intros [= <-]. split; [reflexivity|].
  apply (f_equal (@rev _)) in E. now rewrite rev_involutive in E.
Qed.

Lemma encode_total rows d :
  indices_below rows d ->
  exists column_values,
    convert_state_to_column rows d = Ok column_values /\
    length column_values = rows.
Proof.
  intros Hr. unfold convert_state_to_column.
  destruct (encode_loop d (repeat 0 rows)) as (col & -> & Hlen & _).
  { now rewrite repeat_length. }
  exists col. split; [reflexivity|]. now rewrite Hlen, repeat_length.
Qed.

(** X18.  How [add_template_column] fails on a loaded, rectangular table:
    the table is left as it was (no column is added or changed), and the
    exception is [IndexError] for a table without columns, [OverflowError]
    for a last column that holds an infinity, or the [ValueError] of the
    allocator, which needs more than 24 rows.  Nothing else is raised: the
    encoder and the column assignment cannot fail after an allocation that
    returned. *)
Theorem add_template_column_failure
    (rand : nat -> Z) (csv f : frame) (column_name : string)
    (pos n : nat) (e : exn) (s' : session) :
  rectangular n f ->
  session_add_template_column rand csv column_name (mkSession (Some f) pos)
  = (Raise e, s') ->
  data s' = Some f /\
  ((e = IndexError /\ f = []) \/
   (e = OverflowError /\
    exists column, last_column f = Ok column /\ ~ Forall finite column) \/
   (e = ValueError /\ (24 < n)%nat)).
Proof.
  intros Hrect Hrun.
  unfold session_add_template_column, bind, current_data, lift in Hrun.
  cbn [data] in Hrun. unfold session_template_function at 1 in Hrun.
  destruct (last_column f) as [column|e0] eqn:Hlast.
  2: { destruct (last_column_raises _ _ Hlast) as [-> ->].
       injection Hrun as <- <-. split; [reflexivity | left; now split]. }
  destruct (frame_rows_rectangular n f column Hrect Hlast) as [Hrows Hlen].
  pose proof (decode_items column) as (Hnd & Hb). rewrite Hlen in Hb.
  destruct (decode column) as [[[]|e0] d] eqn:Hdec.
  2: { injection Hrun as <- <-.
       destruct (decode_raises _ _ _ Hdec) as [-> Hnf].
       split; [reflexivity|]. right; left. split; [reflexivity|].
       now exists column. }
  cbn [snd] in Hnd, Hb. cbn [draws_used data] in Hrun.
  set (w0 := mkWorld pos empty_state [] []) in *.
  assert (Hs0 : sane w0) by exact empty_state_sane.
  destruct (_distribute_students rand (previous_state d) w0)
    as [[[]|e0] w] eqn:Halloc.
  - exfalso.
    destruct (accounting_groups rand (items (previous_state d))
                (previous_state d) w0 Hs0) as (un & Hperm & _).
    { simpl. now rewrite !app_nil_r. }
    cbn zeta in Hperm. rewrite Halloc in Hperm. cbn [snd] in Hperm.
    destruct (encode_total n (new_state w)) as (labels & Henc & Hll).
    { intros key l i Hd Hi. apply Hb.
      apply (Permutation_in _ Hperm). apply in_or_app. right.
      apply in_or_app. left. apply in_items. now exists key, l. }
    rewrite Hrows, Henc in Hrun.
    unfold set_column in Hrun. destruct f as [|c f']; [discriminate Hlast|].
    rewrite length_map, Hll, Hrows, Nat.eqb_refl in Hrun. discriminate Hrun.
  - injection Hrun as <- <-. split; [reflexivity|]. right; right.
    pose proof (distribute_result rand (previous_state d) w0 Hs0) as Hres.
    rewrite Halloc in Hres. cbn [fst] in Hres.
    destruct Hres as [Hres|Hres]; [discriminate Hres|].
    injection Hres as ->. split; [reflexivity|].
    destruct (Nat.le_gt_cases n 24) as [Hle|Hgt]; [exfalso | exact Hgt].
    assert (Hcount : (length (items (previous_state d)) <= 24)%nat).
    { apply Nat.le_trans with n; [|assumption].
      rewrite <- (length_seq n 0).
      apply NoDup_incl_length; [assumption|].
      intros i Hi. apply in_seq. specialize (Hb i Hi). lia. }
    destruct (allocation_returns rand pos (previous_state d) Hcount)
      as (w1 & Hok & _).
    fold w0 in Hok. rewrite Hok in Halloc. discriminate Halloc.
Qed.

Lemma add_template_column_failure_witness :
  data (mkSession (Some [("Lab_2"%string, [RInt 1; RInf false])]) 0)
  = Some [("Lab_2"%string, [RInt 1; RInf false])] /\
  ((OverflowError = IndexError /\
    [("Lab_2"%string, [RInt 1; RInf false])] = []) \/
   (OverflowError = OverflowError /\
    exists column,
      last_column [("Lab_2"%string, [RInt 1; RInf false])] = Ok column /\
      ~ Forall finite column) \/
   (OverflowError = ValueError /\ (24 < 2)%nat)).
Proof.
  apply (add_template_column_failure counting []
           [("Lab_2"%string, [RInt 1; RInf false])] "Lab_3" 0 2).
  - intros name values [E|[]]. now injection E as <- <-.
  - reflexivity.
Defined.
